(** * react-native-cached-image: cache-key derivation and cache orchestration

    A shallow embedding of [src/utils/pathUtils.js] (the key deriver) and of
    the image cache manager ([cacheUrl] and the public operations built on
    it), together with the properties of the natural-language specification
    that are settled against them.

    JavaScript strings are modelled as [string], a sequence of code units
    below 256.  Promises are modelled by explicit state passing over a
    [World] that holds the record store, the disk, the network and an
    event log. *)

From Stdlib Require Import ZArith String Ascii List Lia Bool Permutation.
From Stdlib Require Import DecimalString.
From stdpp Require Import base option gmap strings sorting.
Import ListNotations.

Local Open Scope string_scope.

(* ===================================================================== *)
(** ** JavaScript string primitives used by the sources *)
(* ===================================================================== *)

Module Js.

Definition code (c : ascii) : Z := Z.of_nat (nat_of_ascii c).
Definition chr (z : Z) : ascii := ascii_of_nat (Z.to_nat z).

Definition betw (lo hi : Z) (c : ascii) : bool :=
  ((lo <=? code c) && (code c <=? hi))%Z.

Definition isUpper (c : ascii) : bool := betw 65 90 c.
Definition isLower (c : ascii) : bool := betw 97 122 c.
Definition isDigit (c : ascii) : bool := betw 48 57 c.

(** [String.prototype.toLowerCase] on code units below 256: A-Z and the
    Latin-1 capitals U+00C0..U+00DE (except the multiplication sign
    U+00D7) move up by 32. *)
Definition lowerChar (c : ascii) : ascii :=
  if isUpper c then chr (code c + 32)
  else if betw 192 222 c && negb (code c =? 215)%Z then chr (code c + 32)
  else c.

Fixpoint toLowerCase (s : string) : string :=
  match s with
  | EmptyString => EmptyString
  | String c r => String (lowerChar c) (toLowerCase r)
  end.

(** [_.startsWith(s, target)] *)
Definition startsWith (s target : string) : bool := String.prefix target s.

(** [s.indexOf(needle)]: first position, [None] for -1. *)
Fixpoint indexOf (needle s : string) : option nat :=
  if String.prefix needle s then Some 0%nat
  else match s with
       | EmptyString => None
       | String _ r => option_map S (indexOf needle r)
       end.

(** [s.includes(needle)] *)
Definition includes (needle s : string) : bool :=
  match indexOf needle s with Some _ => true | None => false end.

(** [s.substring(a, b)]: both ends clamped to the length and swapped
    when out of order. *)
Definition substring (a b : nat) (s : string) : string :=
  let n := String.length s in
  let a' := Nat.min a n in
  let b' := Nat.min b n in
  String.substring (Nat.min a' b') (Nat.max a' b' - Nat.min a' b') s.

(** [s.split(sep)] for a one-character separator; never empty. *)
Fixpoint split (sep : ascii) (s : string) : list string :=
  match s with
  | EmptyString => [EmptyString]
  | String c r =>
      if Ascii.eqb c sep then EmptyString :: split sep r
      else match split sep r with
           | [] => [String c EmptyString]
           | p :: ps => String c p :: ps
           end
  end.

(** [parts.join(sep)] *)
Fixpoint join (sep : string) (parts : list string) : string :=
  match parts with
  | [] => EmptyString
  | [p] => p
  | p :: ps => p +:+ sep +:+ join sep ps
  end.

(** [Number.prototype.toString] on an integer value. *)
Definition numberToString (z : Z) : string :=
  NilZero.string_of_int (Z.to_int z).

(** [Math.imul] and [x | 0]: wrap-around to a signed 32-bit integer. *)
Definition toInt32 (z : Z) : Z := ((z + 2147483648) mod 4294967296 - 2147483648)%Z.
Definition imul (a b : Z) : Z := toInt32 (a * b).

(** A plain object with string values, as the list of its own properties
    in enumeration order.  Keys are unique. *)
Definition Obj := list (string * string).

Fixpoint get (k : string) (o : Obj) : option string :=
  match o with
  | [] => None
  | (k', v) :: r => if String.eqb k' k then Some v else get k r
  end.

(** [o[k] = v]: an existing property keeps its position. *)
Fixpoint set (k v : string) (o : Obj) : Obj :=
  match o with
  | [] => [(k, v)]
  | (k', v') :: r =>
      if String.eqb k' k then (k', v) :: r else (k', v') :: set k v r
  end.

(** [_.toPairs(o)] *)
Definition toPairs (o : Obj) : list (string * string) := o.

(** [_.pick(o, names)]: a new object with the named properties that [o]
    has, inserted in the order of [names]. *)
Fixpoint pickInto (acc : Obj) (o : Obj) (names : list string) : Obj :=
  match names with
  | [] => acc
  | n :: ns =>
      match get n o with
      | Some v => pickInto (set n v acc) o ns
      | None => pickInto acc o ns
      end
  end.
Definition pick (o : Obj) (names : list string) : Obj := pickInto [] o names.

(** [_.sortBy(pairs, a => a[0])]: a stable sort by key; keys are strings
    and compare by code units. *)
Fixpoint insertBy (x : string * string) (l : list (string * string))
  : list (string * string) :=
  match l with
  | [] => [x]
  | y :: r => if String.leb (fst x) (fst y) then x :: y :: r
              else y :: insertBy x r
  end.
Definition sortBy (l : list (string * string)) : list (string * string) :=
  fold_right insertBy [] l.

End Js.

(* ===================================================================== *)
(** ** SHA-1 ([crypto-js/sha1], rendered as a lowercase hex string) *)
(* ===================================================================== *)

Module Sha1.
Local Open Scope Z_scope.

Definition w32 (z : Z) : Z := z mod 4294967296.
Definition add32 (a b : Z) : Z := w32 (a + b).
Definition rotl (n x : Z) : Z :=
  Z.lor (w32 (Z.shiftl x n)) (Z.shiftr x (32 - n)).
Definition not32 (x : Z) : Z := 4294967295 - x.

(** The message string is read as UTF-8. *)
Definition utf8 (c : ascii) : list Z :=
  let n := Js.code c in
  if n <? 128 then [n]
  else [Z.lor 192 (Z.shiftr n 6); Z.lor 128 (Z.land n 63)].

Fixpoint utf8_parse (s : string) : list Z :=
  match s with
  | EmptyString => []
  | String c r => utf8 c ++ utf8_parse r
  end.

Definition be_bytes (k : nat) (z : Z) : list Z :=
  map (fun i => Z.land (Z.shiftr z (8 * Z.of_nat i)) 255) (rev (seq 0 k)).

Definition pad (bytes : list Z) : list Z :=
  let len := Z.of_nat (length bytes) in
  let zeros := Z.to_nat ((55 - len) mod 64) in
  bytes ++ [128] ++ repeat 0 zeros ++ be_bytes 8 (8 * len).

Fixpoint words (n : nat) (bytes : list Z) : list Z :=
  match n with
  | O => []
  | S n' =>
      match bytes with
      | a :: b :: c :: d :: r =>
          (Z.shiftl a 24 + Z.shiftl b 16 + Z.shiftl c 8 + d) :: words n' r
      | _ => []
      end
  end.

Definition f (t : nat) (b c d : Z) : Z :=
  if (t <? 20)%nat then Z.lor (Z.land b c) (Z.land (not32 b) d)
  else if (t <? 40)%nat then Z.lxor (Z.lxor b c) d
  else if (t <? 60)%nat then
    Z.lor (Z.lor (Z.land b c) (Z.land b d)) (Z.land c d)
  else Z.lxor (Z.lxor b c) d.

Definition K (t : nat) : Z :=
  if (t <? 20)%nat then 1518500249
  else if (t <? 40)%nat then 1859775393
  else if (t <? 60)%nat then 2400959708
  else 3395469782.

Record regs := Regs { ra : Z; rb : Z; rc : Z; rd : Z; re : Z }.

(** The window holds the sixteen schedule words W[t..t+15]. *)
Definition next_word (win : list Z) : Z :=
  rotl 1 (Z.lxor (Z.lxor (Z.lxor (nth 13 win 0) (nth 8 win 0))
                        (nth 2 win 0)) (nth 0 win 0)).

Fixpoint rounds (n t : nat) (win : list Z) (r : regs) : regs :=
  match n with
  | O => r
  | S n' =>
      let tmp :=
        add32 (add32 (add32 (add32 (rotl 5 (ra r))
                                   (f t (rb r) (rc r) (rd r)))
                            (re r)) (nth 0 win 0)) (K t) in
      rounds n' (S t) (tl win ++ [next_word win])
        (Regs tmp (ra r) (rotl 30 (rb r)) (rc r) (rd r))
  end.

Definition process_block (h : regs) (block : list Z) : regs :=
  let r := rounds 80 0 block h in
  Regs (add32 (ra h) (ra r)) (add32 (rb h) (rb r)) (add32 (rc h) (rc r))
       (add32 (rd h) (rd r)) (add32 (re h) (re r)).

Fixpoint blocks (n : nat) (ws : list Z) (h : regs) : regs :=
  match n with
  | O => h
  | S n' => blocks n' (skipn 16 ws) (process_block h (firstn 16 ws))
  end.

Definition init : regs :=
  Regs 1732584193 4023233417 2562383102 271733878 3285377520.

Definition hex_digit (z : Z) : ascii :=
  if z <? 10 then Js.chr (48 + z) else Js.chr (87 + z).

Definition hex32 (z : Z) : string :=
  fold_right
    (fun i acc =>
       String (hex_digit (Z.land (Z.shiftr z (4 * Z.of_nat i)) 15)) acc)
    EmptyString (rev (seq 0 8)).

(** ['' + SHA1(message)] *)
Definition SHA1 (message : string) : string :=
  let p := pad (utf8_parse message) in
  let nblocks := Nat.div (length p) 64 in
  let h := blocks nblocks (words (16 * nblocks) p) init in
  hex32 (ra h) +:+ hex32 (rb h) +:+ hex32 (rc h) +:+ hex32 (rd h)
    +:+ hex32 (re h).
End Sha1.

(* ===================================================================== *)
(** ** The [url-parse] package *)
(* ===================================================================== *)

(** [url-parse] and its query parser [querystringify] are third-party
    packages.  The model covers absolute URLs of the shape
    [scheme://host/path?query#fragment] without user information; an
    explicit port stays part of [host].  Query keys and values are taken
    verbatim (no percent-decoding or encoding), a repeated key keeps its
    first value, and property enumeration follows insertion order.  The
    libraries differ from this outside that shape: they split user
    information off the host and drop a default port, decode percent
    escapes and [+] in the query, encode on the way back, and enumerate
    integer-like names first. *)
Module UrlParse.

Record Url := MkUrl {
  protocol : string;
  slashes : bool;
  host : string;
  pathname : string;
  query : Js.Obj;
  hash : string
}.

Definition isSchemeChar (c : ascii) : bool :=
  Js.isUpper c || Js.isLower c || Js.isDigit c
  || Ascii.eqb c "."%char || Ascii.eqb c "+"%char || Ascii.eqb c "-"%char.

(** Longest prefix of scheme characters followed by a colon. *)
Fixpoint schemeEnd (s : string) : option nat :=
  match s with
  | EmptyString => None
  | String c r =>
      if Ascii.eqb c ":"%char then Some 0%nat
      else if isSchemeChar c then option_map S (schemeEnd r)
      else None
  end.

(** [extractProtocol]: an optional [scheme:] and an optional [//]. *)
Definition extractProtocol (address : string) : string * bool * string :=
  let '(proto, rest) :=
    match address with
    | String c _ =>
        if Js.isUpper c || Js.isLower c then
          match schemeEnd address with
          | Some n =>
              (Js.toLowerCase (String.substring 0 (S n) address),
               String.substring (S n) (String.length address - S n) address)
          | None => (EmptyString, address)
          end
        else (EmptyString, address)
    | EmptyString => (EmptyString, address)
    end in
  if String.prefix "//" rest
  then (proto, true, String.substring 2 (String.length rest - 2) rest)
  else (proto, false, rest).

(** Cut [s] at the first occurrence of [c]: the part before it and the
    part from it on (empty when [c] does not occur). *)
Fixpoint cutAt (c : ascii) (s : string) : string * string :=
  match s with
  | EmptyString => (EmptyString, EmptyString)
  | String d r =>
      if Ascii.eqb d c then (EmptyString, s)
      else let '(a, b) := cutAt c r in (String d a, b)
  end.

Definition isQuerySep (c : ascii) : bool :=
  Ascii.eqb c "="%char || Ascii.eqb c "?"%char || Ascii.eqb c "&"%char.

(** Longest prefix whose characters satisfy [p], and the rest. *)
Fixpoint span (p : ascii -> bool) (s : string) : string * string :=
  match s with
  | EmptyString => (EmptyString, EmptyString)
  | String c r =>
      if p c then let '(a, b) := span p r in (String c a, b)
      else (EmptyString, s)
  end.

(** [querystringify.parse]: repeated matching of a key (a non-empty run
    of characters other than [=], [?] and [&]), an optional [=] and a
    value (a run of characters other than [&]). *)
Fixpoint parseQuery (fuel : nat) (q : string) (result : Js.Obj) : Js.Obj :=
  match fuel with
  | O => result
  | S fuel' =>
      let '(_, q1) := span isQuerySep q in
      match q1 with
      | EmptyString => result
      | _ =>
          let '(key, q2) := span (fun c => negb (isQuerySep c)) q1 in
          let q3 := match q2 with
                    | String "="%char r => r
                    | _ => q2
                    end in
          let '(value, q4) :=
            span (fun c => negb (Ascii.eqb c "&"%char)) q3 in
          parseQuery fuel' q4
            (match Js.get key result with
             | Some _ => result
             | None => Js.set key value result
             end)
      end
  end.

Definition qs_parse (q : string) : Js.Obj :=
  parseQuery (S (String.length q)) q [].

(** [querystringify.stringify] *)
Definition qs_stringify (o : Js.Obj) : string :=
  Js.join "&" (map (fun kv => fst kv +:+ "=" +:+ snd kv) o).

(** [new URL(address, null, true)] *)
Definition parse (address : string) : Url :=
  let '(proto, sl, rest) := extractProtocol address in
  let '(rest1, h) := cutAt "#"%char rest in
  let '(rest2, q) := cutAt "?"%char rest1 in
  let '(hst, path) :=
    if sl then cutAt "/"%char rest2 else (EmptyString, rest2) in
  let hst' := Js.toLowerCase hst in
  let path' :=
    match path with
    | String "/"%char _ => path
    | _ => match hst' with
           | EmptyString => path
           | _ => String "/"%char path
           end
    end in
  MkUrl proto sl hst' path' (qs_parse q) h.

(** [url.set('query', q)] *)
Definition setQuery (q : Js.Obj) (u : Url) : Url :=
  MkUrl (protocol u) (slashes u) (host u) (pathname u) q (hash u).

(** [url.toString()] *)
Definition toString (u : Url) : string :=
  let q := qs_stringify (query u) in
  protocol u +:+ (if slashes u then "//" else "") +:+ host u
    +:+ pathname u
    +:+ (match q with EmptyString => "" | _ => "?" +:+ q end)
    +:+ hash u.

End UrlParse.

(* ===================================================================== *)
(** ** [src/utils/pathUtils.js] *)
(* ===================================================================== *)

Module PathUtils.
Import UrlParse.

Definition defaultImageTypes : list string :=
  ["png"; "jpeg"; "jpg"; "gif"; "bmp"; "tiff"; "tif"].

Definition serializeObjectKeys (obj : Js.Obj) : list string :=
  map snd (Js.sortBy (Js.toPairs obj)).

(** The values [useQueryParamsInCacheKey] takes: a boolean or an array of
    parameter names. *)
Inductive QueryPolicy :=
| UseBool (b : bool)
| UseNames (names : list string).

(** What [getQueryForCacheKey] returns: the empty string or an array. *)
Inductive QueryPart :=
| EmptyPart
| ValuesPart (values : list string).

Definition getQueryForCacheKey (url : Url) (useQueryParamsInCacheKey : QueryPolicy)
  : QueryPart :=
  match useQueryParamsInCacheKey with
  | UseNames names => ValuesPart (serializeObjectKeys (Js.pick (query url) names))
  | UseBool true => ValuesPart (serializeObjectKeys (query url))
  | UseBool false => EmptyPart
  end.

(** String conversion under [+]: an array renders as its elements joined
    by commas. *)
Definition partToString (q : QueryPart) : string :=
  match q with
  | EmptyPart => ""
  | ValuesPart values => Js.join "," values
  end.

Fixpoint hashLoop (s : string) (h : Z) : Z :=
  match s with
  | EmptyString => h
  | String c r => hashLoop r (Js.toInt32 (Js.imul 31 h + Js.code c))
  end.

Definition hashCode (s : string) : Z := hashLoop s 0%Z.

Definition formulaFlag : string := "cgi-bin/math.cgi?".

(** [pathParts.pop()] is the last element of a split, which is never
    empty; [x.length / 2] as a string index is truncated. *)
Definition generateCacheKey (url : string) (useQueryParamsInCacheKey : QueryPolicy)
  : string :=
  let parsedUrl := parse url in
  let pathParts := Js.split "/" (pathname parsedUrl) in
  let fileName := List.last pathParts "" in
  let filePath := Js.join "/" (List.removelast pathParts) in
  let parts := Js.split "." fileName in
  let fileType :=
    if (1 <? length parts)%nat then Js.toLowerCase (List.last parts "")
    else "" in
  let type :=
    if existsb (String.eqb fileType) defaultImageTypes then fileType
    else "jpg" in
  let cacheable :=
    if Js.includes formulaFlag url then
      let formulaParams :=
        Js.substring (default 0%nat (Js.indexOf formulaFlag url))
                     (String.length url) url in
      let mergeHashCode :=
        (hashCode (Js.substring 0 (Nat.div (String.length formulaParams) 2)
                                formulaParams)
         + hashCode (Js.substring (Nat.div (String.length formulaParams) 2)
                                  (String.length formulaParams) formulaParams))%Z in
      filePath +:+ fileName +:+ type +:+ Js.numberToString mergeHashCode
    else
      filePath +:+ fileName +:+ type
        +:+ partToString (getQueryForCacheKey parsedUrl useQueryParamsInCacheKey) in
  Sha1.SHA1 cacheable +:+ "." +:+ type.

(** Every occurrence of a dot followed by a colon becomes an underscore. *)
Fixpoint replaceDotColon (s : string) : string :=
  match s with
  | EmptyString => EmptyString
  | String "."%char (String ":"%char r) => String "_"%char (replaceDotColon r)
  | String c r => String c (replaceDotColon r)
  end.

Definition isWordChar (c : ascii) : bool :=
  Js.isLower c || Js.isUpper c || Js.isDigit c || Ascii.eqb c "_"%char.

Fixpoint replaceNonWord (s : string) : string :=
  match s with
  | EmptyString => EmptyString
  | String c r =>
      String (if isWordChar c then c else "_"%char) (replaceNonWord r)
  end.

Definition getHostCachePathComponent (url : string) : string :=
  let host := host (parse url) in
  Js.toLowerCase (replaceNonWord (replaceDotColon host))
    +:+ "_" +:+ Sha1.SHA1 host.

(** [generateCacheKey(url)] with its second parameter left out takes the
    default [true]. *)
Definition getImageFilePath (url cacheLocation : string) : string :=
  let hostCachePath := getHostCachePathComponent url in
  let cacheKey := generateCacheKey url (UseBool true) in
  cacheLocation +:+ "/" +:+ hostCachePath +:+ "/" +:+ cacheKey.

Definition getImageRelativeFilePath (url : string) : string :=
  let hostCachePath := getHostCachePathComponent url in
  let cacheKey := generateCacheKey url (UseBool true) in
  hostCachePath +:+ "/" +:+ cacheKey.

(** [None] stands for an undefined [useQueryParamsInCacheKey]. *)
Definition getCacheableUrl (url : string)
  (useQueryParamsInCacheKey : option QueryPolicy) : string :=
  let parsedUrl := parse url in
  let parsedUrl :=
    match useQueryParamsInCacheKey with
    | Some (UseNames names) =>
        setQuery (Js.pick (query parsedUrl) names) parsedUrl
    | _ => parsedUrl
    end in
  let parsedUrl :=
    match useQueryParamsInCacheKey with
    | Some (UseBool true) | Some (UseNames _) => parsedUrl
    | _ => setQuery [] parsedUrl
    end in
  toString parsedUrl.

End PathUtils.

(* ===================================================================== *)
(** ** The image cache manager *)
(* ===================================================================== *)

Module ImageCacheManager.
Import PathUtils.

(** Values a caller may pass as [url]. *)
Inductive JsValue :=
| JsUndefined
| JsNull
| JsBoolean (b : bool)
| JsNumber (z : Z)
| JsString (s : string).

(** An options object; [None] is an undefined property. *)
Record Options := MkOptions {
  headers : option Js.Obj;
  ttl : option Z;
  useQueryParamsInCacheKey : option QueryPolicy;
  cacheLocation : option string;
  allowSelfSignedSSL : option bool
}.

Definition emptyOptions : Options := MkOptions None None None None None.

Definition orElse {A} (x y : option A) : option A :=
  match x with Some _ => x | None => y end.

(** The object that [_.defaults(object, source)] leaves in [object]:
    each undefined property is filled from [source]. *)
Definition defaults (object source : Options) : Options :=
  MkOptions (orElse (headers object) (headers source))
            (orElse (ttl object) (ttl source))
            (orElse (useQueryParamsInCacheKey object)
                    (useQueryParamsInCacheKey source))
            (orElse (cacheLocation object) (cacheLocation source))
            (orElse (allowSelfSignedSSL object) (allowSelfSignedSSL source)).

Inductive Error :=
| NotCacheable          (* Error("Url is not cacheable") *)
| ExpiredOrNotInCache   (* Error("URL expired or not in cache") *)
| FileMissing           (* Error("file under URL stored in url cache doesn't exsts") *)
| DownloadFailed (url : string)
| CopyFailed (seedPath : string).

(** Calls made to the collaborators, in the order they are made. *)
Inductive Event :=
| StoreGet (key : string)
| StoreSet (key value : string) (ttl : option Z)
| StoreRemove (key : string)
| StoreFlush
| FsExists (path : string)
| FsDeleteFile (path : string)
| FsDownloadFile (url path : string) (headers : option Js.Obj)
| FsCopyFile (src dst : string)
| FsCleanDir (path : string)
| FsGetDirInfo (path : string).

Record World := MkWorld {
  heap : gmap nat Options;        (* option objects, by reference *)
  store : gmap string (string * option Z);
                                  (* the record store: value and time-to-live *)
  disk : gmap string string;      (* files and their content *)
  remote : gmap string string;    (* what the network serves *)
  cacheDir : string;              (* what fs.getCacheDir() answers *)
  log : list Event
}.

Definition setHeap (h : gmap nat Options) (w : World) : World :=
  MkWorld h (store w) (disk w) (remote w) (cacheDir w) (log w).
Definition setStore (s : gmap string (string * option Z)) (w : World) : World :=
  MkWorld (heap w) s (disk w) (remote w) (cacheDir w) (log w).
Definition setDisk (d : gmap string string) (w : World) : World :=
  MkWorld (heap w) (store w) d (remote w) (cacheDir w) (log w).
Definition emit (e : Event) (w : World) : World :=
  MkWorld (heap w) (store w) (disk w) (remote w) (cacheDir w) (log w ++ [e]).

Definition getObj (l : nat) (w : World) : Options :=
  default emptyOptions (heap w !! l).

(** *** Promises

    A promise is run from a world and the local variables [L] of the
    enclosing closure; it settles with an outcome. *)
Inductive Outcome (A : Type) :=
| Resolved (a : A)
| Rejected (e : Error).
Arguments Resolved {A} a.
Arguments Rejected {A} e.

Definition Promise (L A : Type) : Type := L -> World -> Outcome A * L * World.

Definition resolve {L A} (a : A) : Promise L A := fun l w => (Resolved a, l, w).
Definition reject {L A} (e : Error) : Promise L A := fun l w => (Rejected e, l, w).

(** [p.then(k)] *)
Definition andThen {L A B} (p : Promise L A) (k : A -> Promise L B)
  : Promise L B :=
  fun l w =>
    match p l w with
    | (Resolved a, l', w') => k a l' w'
    | (Rejected e, l', w') => (Rejected e, l', w')
    end.

(** [p.catch(k)] *)
Definition catch {L A} (p : Promise L A) (k : Error -> Promise L A)
  : Promise L A :=
  fun l w =>
    match p l w with
    | (Resolved a, l', w') => (Resolved a, l', w')
    | (Rejected e, l', w') => k e l' w'
    end.

Definition getLocal {L} : Promise L L := fun l w => (Resolved l, l, w).
Definition setLocal {L} (v : L) : Promise L unit := fun _ w => (Resolved tt, v, w).

(** A closure with its own local variables, initialised to [init]. *)
Definition withLocals {L L' A} (init : L') (p : Promise L' A) : Promise L A :=
  fun l w => let '(r, _, w') := p init w in (r, l, w').

Definition readWorld {L A} (f : World -> A) : Promise L A :=
  fun l w => (Resolved (f w), l, w).
Definition updWorld {L} (f : World -> World) : Promise L unit :=
  fun l w => (Resolved tt, l, f w).

Notation "x <- p ;; k" := (andThen p (fun x => k))
  (at level 100, p at next level, right associativity).
Notation "p ;;; k" := (andThen p (fun _ => k))
  (at level 100, right associativity).

(** *** Collaborators

    The record store and the filesystem helpers are injected into the
    manager; their code is not part of the sources at hand.  They are
    modelled from their contracts, each call leaving an event in the log.
    The record store has no clock: an entry that has expired is one the
    store no longer holds. *)

(** Modelled from the spec: [urlCache.get] of the record store
    [MemoryCache], which answers with the stored relative path or with
    nothing. *)
Definition urlCache_get {L} (key : string) : Promise L (option string) :=
  updWorld (emit (StoreGet key)) ;;;
  readWorld (fun w => fst <$> store w !! key).

(** Modelled from the spec: [urlCache.set] of the record store, which
    writes the entry with its time-to-live. *)
Definition urlCache_set {L} (key value : string) (ttl : option Z) : Promise L unit :=
  updWorld (emit (StoreSet key value ttl)) ;;;
  updWorld (fun w => setStore (<[key := (value, ttl)]> (store w)) w).

(** Modelled from the spec: [urlCache.remove] of the record store. *)
Definition urlCache_remove {L} (key : string) : Promise L unit :=
  updWorld (emit (StoreRemove key)) ;;;
  updWorld (fun w => setStore (delete key (store w)) w).

(** Modelled from the spec: [urlCache.flush] of the record store. *)
Definition urlCache_flush {L} : Promise L unit :=
  updWorld (emit StoreFlush) ;;;
  updWorld (setStore ∅).

(** Modelled from the spec: [fs.exists] of [utils/fsUtils]. *)
Definition fs_exists {L} (path : string) : Promise L bool :=
  updWorld (emit (FsExists path)) ;;;
  readWorld (fun w => bool_decide (is_Some (disk w !! path))).

(** Modelled from the spec: [fs.deleteFile] of [utils/fsUtils]; deleting
    an absent file is not an error. *)
Definition fs_deleteFile {L} (path : string) : Promise L unit :=
  updWorld (emit (FsDeleteFile path)) ;;;
  updWorld (fun w => setDisk (delete path (disk w)) w).

(** Modelled from the spec: [fs.downloadFile] of [utils/fsUtils]; it
    succeeds when the network serves the URL and then leaves the body at
    the destination, and fails otherwise.  A failure is modelled as
    writing nothing; the contract allows a partial file at the
    destination, so no statement relies on what a failed download leaves
    there. *)
Definition fs_downloadFile {L} (url path : string) (hdrs : option Js.Obj)
  : Promise L unit :=
  updWorld (emit (FsDownloadFile url path hdrs)) ;;;
  body <- readWorld (fun w => remote w !! url) ;;
  match body with
  | Some b => updWorld (fun w => setDisk (<[path := b]> (disk w)) w)
  | None => reject (DownloadFailed url)
  end.

(** Modelled from the spec: [fs.copyFile] of [utils/fsUtils]; it succeeds
    when the source file exists. *)
Definition fs_copyFile {L} (src dst : string) : Promise L unit :=
  updWorld (emit (FsCopyFile src dst)) ;;;
  content <- readWorld (fun w => disk w !! src) ;;
  match content with
  | Some c => updWorld (fun w => setDisk (<[dst := c]> (disk w)) w)
  | None => reject (CopyFailed src)
  end.

Definition inDir (dir path : string) : bool := String.prefix (dir +:+ "/") path.

(** Modelled from the spec: [fs.cleanDir] of [utils/fsUtils], which
    empties a directory. *)
Definition fs_cleanDir {L} (dir : string) : Promise L unit :=
  updWorld (emit (FsCleanDir dir)) ;;;
  updWorld (fun w =>
    setDisk (filter (fun kv => inDir dir (fst kv) = false) (disk w)) w).

Record DirInfo := MkDirInfo { files : list string; size : nat }.

(** Modelled from the spec: [fs.getDirInfo] of [utils/fsUtils], the files
    of a directory and their total size. *)
Definition fs_getDirInfo {L} (dir : string) : Promise L DirInfo :=
  updWorld (emit (FsGetDirInfo dir)) ;;;
  readWorld (fun w =>
    let inside := filter (fun kv => inDir dir (fst kv) = true) (disk w) in
    MkDirInfo (fst <$> map_to_list inside)
              (foldr (fun kv n => (String.length (snd kv) + n)%nat) 0%nat
                     (map_to_list inside))).

(** *** Option objects *)

(** [_.defaults(object, source)] on two objects of the heap: [object] is
    updated in place. *)
Definition defaultsInPlace {L} (object source : nat) : Promise L unit :=
  updWorld (fun w =>
    setHeap (<[object := defaults (getObj object w) (getObj source w)]> (heap w)) w).

(** The object a call works on: the one supplied, or a fresh empty one
    when the argument is left out. *)
Definition optionsArg {L} (options : option nat) : Promise L nat :=
  match options with
  | Some l => resolve l
  | None =>
      l <- readWorld (fun w => fresh (dom (heap w))) ;;
      updWorld (fun w => setHeap (<[l := emptyOptions]> (heap w)) w) ;;;
      resolve l
  end.

(** A value interpolated in a template literal. *)
Definition interpolate (s : option string) : string := default "undefined" s.

(** *** The manager *)

(** The closure the module exports: it holds the default options object. *)
Record Manager := MkManager { defaultOptions : nat }.

Definition defaultDefaultOptions (w : World) : Options :=
  MkOptions (Some []) (Some (60 * 60 * 24 * 14)%Z) (Some (UseBool false))
            (Some (cacheDir w)) (Some false).

(** The exported factory: the defaults handed in (or a fresh object) are
    completed once, in place. *)
Definition create {L} (defaultOptions : option nat) : Promise L Manager :=
  d <- optionsArg defaultOptions ;;
  updWorld (fun w =>
    setHeap (<[d := defaults (getObj d w) (defaultDefaultOptions w)]> (heap w)) w) ;;;
  resolve (MkManager d).

Definition isCacheable (url : JsValue) : bool :=
  match url with
  | JsString s =>
      Js.startsWith (Js.toLowerCase s) "http://"
      || Js.startsWith (Js.toLowerCase s) "https://"
  | _ => false
  end.

Definition asString (url : JsValue) : string :=
  match url with JsString s => s | _ => "" end.

Section CacheUrl.
Context {L : Type}.
Variable m : Manager.

(** The callback chained on [urlCache.get(cacheableUrl)]. *)
Definition onLookup (options : nat) (fileRelativePath : option string)
  : Promise L string :=
  match fileRelativePath with
  | None | Some EmptyString => reject ExpiredOrNotInCache
  | Some fileRelativePath =>
      location <- readWorld (fun w => cacheLocation (getObj options w)) ;;
      let cachedFilePath :=
        interpolate location +:+ "/" +:+ fileRelativePath in
      exists_ <- fs_exists cachedFilePath ;;
      if exists_ then resolve cachedFilePath
      else reject FileMissing
  end.

(** The [catch] callback: the url is not found in the cache or is
    expired. *)
Definition onMiss (options : nat) (cacheableUrl : string)
  (getCachedFile : string -> Promise L unit) : Promise L string :=
  let fileRelativePath := getImageRelativeFilePath cacheableUrl in
  location <- readWorld (fun w => cacheLocation (getObj options w)) ;;
  let filePath := interpolate location +:+ "/" +:+ fileRelativePath in
  fs_deleteFile filePath ;;;
  getCachedFile filePath ;;;
  ttl_ <- readWorld (fun w => ttl (getObj options w)) ;;
  urlCache_set cacheableUrl fileRelativePath ttl_ ;;;
  resolve filePath.

Definition cacheUrl (url : JsValue) (options : nat)
  (getCachedFile : string -> Promise L unit) : Promise L string :=
  if negb (isCacheable url) then reject NotCacheable
  else
    defaultsInPlace options (defaultOptions m) ;;;
    policy <- readWorld (fun w => useQueryParamsInCacheKey (getObj options w)) ;;
    let cacheableUrl := getCacheableUrl (asString url) policy in
    catch (andThen (urlCache_get cacheableUrl) (onLookup options))
          (fun _ => onMiss options cacheableUrl getCachedFile).
End CacheUrl.

Section Operations.
Context {L : Type}.
Variable m : Manager.

Definition isCachedURL (url : JsValue) (options : option nat)
  : Promise L bool :=
  options <- optionsArg options ;;
  withLocals false
    (cacheUrl m url options (fun filePath => setLocal true) ;;;
     noCached <- getLocal ;;
     resolve (negb noCached)).

Definition isURLCacheable (url : JsValue) : bool := isCacheable url.

Definition downloadAndCacheUrl (url : JsValue) (options : option nat)
  : Promise L string :=
  options <- optionsArg options ;;
  cacheUrl m url options (fun filePath =>
    hdrs <- readWorld (fun w => headers (getObj options w)) ;;
    fs_downloadFile (asString url) filePath hdrs).

Definition seedAndCacheUrl (url : JsValue) (seedPath : string)
  (options : option nat) : Promise L string :=
  options <- optionsArg options ;;
  cacheUrl m url options (fun filePath => fs_copyFile seedPath filePath).

Definition deleteUrl (url : JsValue) (options : option nat)
  : Promise L unit :=
  options <- optionsArg options ;;
  if negb (isCacheable url) then reject NotCacheable
  else
    defaultsInPlace options (defaultOptions m) ;;;
    policy <- readWorld (fun w => useQueryParamsInCacheKey (getObj options w)) ;;
    let cacheableUrl := getCacheableUrl (asString url) policy in
    location <- readWorld (fun w => cacheLocation (getObj options w)) ;;
    let filePath := getImageFilePath cacheableUrl (interpolate location) in
    urlCache_remove cacheableUrl ;;;
    fs_deleteFile filePath.

Definition clearCache (options : option nat) : Promise L unit :=
  options <- optionsArg options ;;
  defaultsInPlace options (defaultOptions m) ;;;
  urlCache_flush ;;;
  location <- readWorld (fun w => cacheLocation (getObj options w)) ;;
  fs_cleanDir (interpolate location).

Definition getCacheInfo (options : option nat) : Promise L DirInfo :=
  options <- optionsArg options ;;
  defaultsInPlace options (defaultOptions m) ;;;
  location <- readWorld (fun w => cacheLocation (getObj options w)) ;;
  fs_getDirInfo (interpolate location).

(** The object of operations the factory returns, as the calls it
    accepts and the values they settle with. *)
Inductive Call :=
| CallIsCachedURL (url : JsValue) (options : option nat)
| CallDownloadAndCacheUrl (url : JsValue) (options : option nat)
| CallSeedAndCacheUrl (url : JsValue) (seedPath : string) (options : option nat)
| CallDeleteUrl (url : JsValue) (options : option nat)
| CallClearCache (options : option nat)
| CallGetCacheInfo (options : option nat).

Inductive Value :=
| VBool (b : bool)
| VPath (p : string)
| VUnit
| VInfo (i : DirInfo).

Definition perform (c : Call) : Promise L Value :=
  match c with
  | CallIsCachedURL url o => b <- isCachedURL url o ;; resolve (VBool b)
  | CallDownloadAndCacheUrl url o =>
      p <- downloadAndCacheUrl url o ;; resolve (VPath p)
  | CallSeedAndCacheUrl url seed o =>
      p <- seedAndCacheUrl url seed o ;; resolve (VPath p)
  | CallDeleteUrl url o => deleteUrl url o ;;; resolve VUnit
  | CallClearCache o => clearCache o ;;; resolve VUnit
  | CallGetCacheInfo o => i <- getCacheInfo o ;; resolve (VInfo i)
  end.
End Operations.

(** Running a top-level promise, which has no local variables. *)
Definition run {A} (p : Promise unit A) (w : World) : Outcome A * World :=
  let '(r, _, w') := p tt w in (r, w').

End ImageCacheManager.

(* ===================================================================== *)
(** ** Vocabulary of the statements *)
(* ===================================================================== *)

Import PathUtils ImageCacheManager UrlParse.

(** *** The intermediate values of [generateCacheKey] *)

Definition fileNameOf (parsedUrl : Url) : string :=
  List.last (Js.split "/" (pathname parsedUrl)) "".

Definition filePathOf (parsedUrl : Url) : string :=
  Js.join "/" (List.removelast (Js.split "/" (pathname parsedUrl))).

(** The resolved extension of a file name. *)
Definition typeOf (fileName : string) : string :=
  let parts := Js.split "." fileName in
  let fileType :=
    if (1 <? length parts)%nat then Js.toLowerCase (List.last parts "")
    else "" in
  if existsb (String.eqb fileType) defaultImageTypes then fileType
  else "jpg".

(** The sum of the hash codes of the two halves of the text from the
    formula marker on. *)
Definition mergeHashCode (url : string) : Z :=
  let formulaParams :=
    Js.substring (default 0%nat (Js.indexOf formulaFlag url))
                 (String.length url) url in
  let half := Nat.div (String.length formulaParams) 2 in
  (hashCode (Js.substring 0 half formulaParams)
   + hashCode (Js.substring half (String.length formulaParams) formulaParams))%Z.

(** The string that is hashed. *)
Definition cacheable (url : string) (useQueryParamsInCacheKey : QueryPolicy)
  : string :=
  let parsedUrl := parse url in
  let fileName := fileNameOf parsedUrl in
  let filePath := filePathOf parsedUrl in
  let type := typeOf fileName in
  if Js.includes formulaFlag url then
    filePath +:+ fileName +:+ type +:+ Js.numberToString (mergeHashCode url)
  else
    filePath +:+ fileName +:+ type
      +:+ partToString (getQueryForCacheKey parsedUrl useQueryParamsInCacheKey).

(** *** The cache manager *)

Section Vocabulary.
Variable m : Manager.
Variable url : JsValue.
Variable options : nat.

(** The options a call works with: the caller's object completed from
    the defaults. *)
Definition merged (w : World) : Options :=
  defaults (getObj options w) (getObj (defaultOptions m) w).

(** The world once the caller's object has been completed. *)
Definition prepared (w : World) : World :=
  setHeap (<[options := merged w]> (heap w)) w.

(** The canonical URL, the relative path derived from it, and the
    absolute path of the file. *)
Definition keyOf (w : World) : string :=
  getCacheableUrl (asString url) (useQueryParamsInCacheKey (merged w)).
Definition relOf (w : World) : string := getImageRelativeFilePath (keyOf w).
Definition locationOf (w : World) : string := interpolate (cacheLocation (merged w)).
Definition fileOf (w : World) : string := locationOf w +:+ "/" +:+ relOf w.

(** The file a lookup answers with: the record store holds a non-empty
    relative path for the canonical URL and the file is on disk. *)
Definition hitPath (w : World) : option string :=
  match store w !! keyOf w with
  | Some (String c r, _) =>
      let p := locationOf w +:+ "/" +:+ String c r in
      if bool_decide (is_Some (disk w !! p)) then Some p else None
  | _ => None
  end.

(** The collaborator calls of a lookup. *)
Definition lookupEvents (w : World) : list Event :=
  StoreGet (keyOf w) ::
  match store w !! keyOf w with
  | Some (String c r, _) => [FsExists (locationOf w +:+ "/" +:+ String c r)]
  | _ => []
  end.

(** The world with further events in its log. *)
Definition emitAll (es : list Event) (w : World) : World :=
  MkWorld (heap w) (store w) (disk w) (remote w) (cacheDir w) (log w ++ es).

(** The world in which the materialize step starts on a miss. *)
Definition beforeMaterialize (w : World) : World :=
  let w1 := emitAll (lookupEvents w ++ [FsDeleteFile (fileOf w)]) (prepared w) in
  setDisk (delete (fileOf w) (disk w1)) w1.

(** The world after the record is written, from the world [w'] the
    materialize step left. *)
Definition recorded (w w' : World) : World :=
  let t := ttl (getObj options w') in
  setStore (<[keyOf w := (relOf w, t)]> (store w'))
           (emit (StoreSet (keyOf w) (relOf w) t) w').

(** The world a successful download leaves, from the world it starts in. *)
Definition downloaded (path body : string) (w : World) : World :=
  setDisk (<[path := body]> (disk w))
          (emit (FsDownloadFile (asString url) path (headers (getObj options w))) w).
End Vocabulary.

Arguments getObj : simpl never.
Arguments merged : simpl never.
Arguments keyOf : simpl never.
Arguments relOf : simpl never.
Arguments locationOf : simpl never.
Arguments fileOf : simpl never.
Arguments lookupEvents : simpl never.

(** [s] starts with [prefix] when letter case is ignored. *)
Definition startsWithIgnoringCase (s prefix : string) : Prop :=
  exists a b, s = a +:+ b /\ Js.toLowerCase a = prefix.

(** A string that starts with [http://] or [https://], letter case
    ignored. *)
Definition HttpUrl (v : JsValue) : Prop :=
  exists s, v = JsString s
            /\ (startsWithIgnoringCase s "http://"
                \/ startsWithIgnoringCase s "https://").

(** The URL and the options argument of a call. *)
Definition urlOf (c : Call) : option JsValue :=
  match c with
  | CallIsCachedURL url _ | CallDownloadAndCacheUrl url _
  | CallSeedAndCacheUrl url _ _ | CallDeleteUrl url _ => Some url
  | CallClearCache _ | CallGetCacheInfo _ => None
  end.

Definition optionsOf (c : Call) : option nat :=
  match c with
  | CallIsCachedURL _ o | CallDownloadAndCacheUrl _ o
  | CallSeedAndCacheUrl _ _ o | CallDeleteUrl _ o
  | CallClearCache o | CallGetCacheInfo o => o
  end.

(** The options object a call works on and the world in which its body
    starts. *)
Definition entry (o : option nat) (w : World) : nat * World :=
  match o with
  | Some l => (l, w)
  | None =>
      let l := fresh (dom (heap w)) in
      (l, setHeap (<[l := emptyOptions]> (heap w)) w)
  end.

(** Whether a call gets as far as completing its options object. *)
Definition completes (c : Call) : bool :=
  match urlOf c with
  | Some url => isCacheable url
  | None => true
  end.

(** [p] keeps a property of the world, whatever it settles with. *)
Definition preserves {L A} (P : World -> Prop) (p : Promise L A) : Prop :=
  forall ls w, P w -> P (p ls w).2.

(** The heap is the one the body of a call on the options object [l]
    started with in [w0], with that object completed or not. *)
Definition heapOf (m : Manager) (l : nat) (w0 : World) (w : World) : Prop :=
  heap w = heap w0 \/ heap w = heap (prepared m l w0).

(** The order [_.sortBy] sorts the pairs of a query by: that of their
    names. *)
Definition keyLe (x y : string * string) : Prop := String.le (fst x) (fst y).

(** Whether the character [c] occurs in [s]. *)
Fixpoint occurs (c : ascii) (s : string) : bool :=
  match s with
  | EmptyString => false
  | String d r => Ascii.eqb d c || occurs c r
  end.

(** *** A concrete scenario *)

Definition world0 : World :=
  MkWorld ∅ ∅ ∅ {["http://example.com/a/b/pic.PNG" := "PNGDATA"]} "/cache" [].
Definition url0 : JsValue := JsString "http://example.com/a/b/pic.PNG".
Definition manager0 : Manager := MkManager 0.
(** The world once the factory has run on [world0]. *)
Definition world1 : World := snd (run (create None) world0).
(** A caller's options object that sets only the time-to-live. *)
Definition callerOptions : Options := MkOptions None (Some 5%Z) None None None.
Definition world2 : World := setHeap (<[1%nat := callerOptions]> (heap world1)) world1.

Definition path0 : string :=
  "/cache/example_com_0caaf24ab1a0c33440c06afe99df986365b0781f/c924a5160e624da2ff0e3177901feef909a2f511.png".
Definition rel0 : string :=
  "example_com_0caaf24ab1a0c33440c06afe99df986365b0781f/c924a5160e624da2ff0e3177901feef909a2f511.png".
(** The world after a first download with the caller's options. *)
Definition world3 : World :=
  (run (downloadAndCacheUrl manager0 url0 (Some 1%nat)) world2).2.
(** The same world with the cached file deleted behind the manager's back. *)
Definition world4 : World := setDisk ∅ world3.
(** A URL the network does not serve. *)
Definition url1 : JsValue := JsString "http://example.com/missing.png".

(** *** Further scenarios and vocabulary *)

(** A world with a seed file, and a world with a stale file at the derived
    path of [url0] but no record. *)
Definition worldSeed : World := setDisk {["/tmp/seed.png" := "SEED"]} world2.
Definition worldStale : World := setDisk {[path0 := "OLD"]} world2.

(** Two URLs of the formula family that differ in their query only, and a
    world whose network serves the first. *)
Definition formula1 : string := "http://h/cgi-bin/math.cgi?x=1".
Definition formula2 : string := "http://h/cgi-bin/math.cgi?x=2".
Definition worldFormula : World :=
  MkWorld (heap world2) ∅ ∅ {[formula1 := "GIF1"]} "/cache" [].

Definition pathFormula : string :=
  "/cache/h_27d5482eebd075de44389774fce28c69f45c8a75/e265270117c1c462a6f2debb6dcf3338000bdcfb.jpg".
(** The world after the first formula URL has been downloaded. *)
Definition worldFormula1 : World :=
  (run (downloadAndCacheUrl manager0 (JsString formula1) (Some 1%nat)) worldFormula).2.

(** The polynomial of the character codes of [s] in base 31, started from
    [h], over the integers. *)
Fixpoint horner (s : string) (h : Z) : Z :=
  match s with
  | EmptyString => h
  | String c r => horner r (31 * h + Js.code c)
  end.

(** Whether every character of [s] satisfies [p]. *)
Fixpoint allChars (p : ascii -> bool) (s : string) : bool :=
  match s with
  | EmptyString => true
  | String c r => p c && allChars p r
  end.

(** The characters of a URL on which the parser model and [url-parse]
    agree: visible ASCII other than the backslash (code 92), which the
    library turns into a slash, and the at sign (code 64), which ends the
    user information. *)
Definition isPlainUrlChar (c : ascii) : bool :=
  Js.betw 33 126 c && negb (Js.code c =? 92)%Z && negb (Js.code c =? 64)%Z.


(* ===================================================================== *)
(** ** Facts about the embedding *)
(* ===================================================================== *)

Local Open Scope list_scope.

(** *** The embedding on concrete inputs *)

(** SHA-1 on the test vectors of the standard. *)
Example sha1_abc : Sha1.SHA1 "abc" = "a9993e364706816aba3e25717850c26c9cd0d89d".
Proof. vm_compute. reflexivity. Qed.

Example sha1_empty : Sha1.SHA1 "" = "da39a3ee5e6b4b0d3255bfef95601890afd80709".
Proof. vm_compute. reflexivity. Qed.

Example sha1_two_blocks :
  Sha1.SHA1 "abcdbcdecdefdefgefghfghighijhijkijkljklmklmnlmnomnopnopq"
  = "84983e441c3bd26ebaae4aa1f95129e5e54670f1".
Proof. vm_compute. reflexivity. Qed.

Example hashCode_wraps : hashCode "cgi-bin/ma" = (-1258780188)%Z.
Proof. vm_compute. reflexivity. Qed.

Example parse_pic :
  parse "http://example.com/a/b/pic.PNG"
  = MkUrl "http:" true "example.com" "/a/b/pic.PNG" [] "".
Proof. vm_compute. reflexivity. Qed.

Example parse_mixed :
  parse "HTTPS://Ex.COM:8080?b=2&a=1&b=3&&c&d==4#frag?x"
  = MkUrl "https:" true "ex.com:8080" "/"
          [("b", "2"); ("a", "1"); ("c", ""); ("d", "=4")] "#frag?x".
Proof. vm_compute. reflexivity. Qed.

Example sortBy_is_stable :
  Js.sortBy [("b", "1"); ("a", "2"); ("b", "0"); ("A", "z")]
  = [("A", "z"); ("a", "2"); ("b", "1"); ("b", "0")].
Proof. vm_compute. reflexivity. Qed.

Example getCacheableUrl_policies :
  getCacheableUrl "http://h/p.png?b=2&a=1#x" None = "http://h/p.png#x"
  /\ getCacheableUrl "http://h/p.png?b=2&a=1#x" (Some (UseBool false))
     = "http://h/p.png#x"
  /\ getCacheableUrl "http://h/p.png?b=2&a=1#x" (Some (UseBool true))
     = "http://h/p.png?b=2&a=1#x"
  /\ getCacheableUrl "http://h/p.png?b=2&a=1#x" (Some (UseNames ["a"]))
     = "http://h/p.png?a=1#x".
Proof. vm_compute. done. Qed.

Example isCacheable_samples :
  isCacheable (JsString "HTTPS://Example.com/x.png") = true
  /\ isCacheable (JsString "ftp://x") = false
  /\ isCacheable (JsNumber 42) = false
  /\ isCacheable JsNull = false.
Proof. vm_compute. done. Qed.

(** The factory completes the defaults it is handed. *)
Example create_completes_defaults :
  run (create None) world0 = (Resolved manager0, world1)
  /\ heap world1 !! 0%nat
     = Some (MkOptions (Some []) (Some 1209600%Z) (Some (UseBool false))
                       (Some "/cache") (Some false)).
Proof. vm_compute. done. Qed.

(** A download, a probe and a second download, all without an options
    argument. *)
Example default_options_round_trip :
  let r1 := run (downloadAndCacheUrl manager0 url0 None) world1 in
  let r2 := run (isCachedURL manager0 url0 None) r1.2 in
  let r3 := run (downloadAndCacheUrl manager0 url0 None) r2.2 in
  r1.1 = Resolved path0 /\ r2.1 = Resolved true /\ r3.1 = Resolved path0
  /\ log r3.2
     = [StoreGet "http://example.com/a/b/pic.PNG";
        FsDeleteFile path0;
        FsDownloadFile "http://example.com/a/b/pic.PNG" path0 (Some []);
        StoreSet "http://example.com/a/b/pic.PNG" rel0 (Some 1209600%Z);
        StoreGet "http://example.com/a/b/pic.PNG"; FsExists path0;
        StoreGet "http://example.com/a/b/pic.PNG"; FsExists path0].
Proof. vm_compute. done. Qed.

Lemma generateCacheKey_unfold url policy :
  generateCacheKey url policy
  = Sha1.SHA1 (cacheable url policy) +:+ "." +:+ typeOf (fileNameOf (parse url)).
Proof.
  unfold generateCacheKey, cacheable, typeOf, fileNameOf, filePathOf, mergeHashCode.
  by destruct (Js.includes formulaFlag url).
Qed.

Lemma getObj_prepared m l w : getObj l (prepared m l w) = merged m l w.
Proof. unfold getObj, prepared. simpl. by rewrite lookup_insert_eq. Qed.

(** Unfolding of the promise combinators and of the collaborators. *)
Ltac run_promise :=
  unfold urlCache_get, urlCache_set, urlCache_remove, urlCache_flush,
    fs_exists, fs_deleteFile, fs_downloadFile, fs_copyFile, fs_cleanDir,
    fs_getDirInfo, defaultsInPlace;
  unfold andThen, catch, updWorld, readWorld, resolve, reject,
    getLocal, setLocal, withLocals; simpl.

Ltac world_eq :=
  unfold setDisk, setStore, setHeap, emit, emitAll; simpl;
  rewrite <- ?app_assoc; simpl.

Lemma getObj_heap l w w' : heap w' = heap w -> getObj l w' = getObj l w.
Proof. unfold getObj. by intros ->. Qed.

Section CacheUrlFacts.
Context {L : Type}.
Variables (m : Manager) (url : JsValue) (l : nat).
Variable cb : string -> Promise L unit.
Hypothesis Hc : isCacheable url = true.

Lemma cacheUrl_hit ls w p :
  hitPath m url l w = Some p ->
  cacheUrl m url l cb ls w
  = (Resolved p, ls, emitAll (lookupEvents m url l w) (prepared m l w)).
Proof.
  intros Hhit. unfold cacheUrl. rewrite Hc. simpl. run_promise.
  fold (merged m l w). fold (prepared m l w).
  rewrite getObj_prepared. fold (keyOf m url l w).
  unfold hitPath in Hhit. unfold lookupEvents.
  destruct (store w !! keyOf m url l w) as [[rel t]|] eqn:Hs; [|done].
  simpl. destruct rel as [|c r]; [done|].
  unfold onLookup. run_promise.
  rewrite (getObj_heap l (prepared m l w)) by done.
  rewrite getObj_prepared. fold (locationOf m l w).
  destruct (bool_decide _); [|done].
  injection Hhit as <-. unfold emitAll, emit. simpl.
  by rewrite <- app_assoc.
Qed.

Lemma cacheUrl_miss ls w :
  hitPath m url l w = None ->
  cacheUrl m url l cb ls w
  = match cb (fileOf m url l w) ls (beforeMaterialize m url l w) with
    | (Resolved _, ls', w') =>
        (Resolved (fileOf m url l w), ls', recorded m url l w w')
    | (Rejected e, ls', w') => (Rejected e, ls', w')
    end.
Proof.
  intros Hhit. unfold cacheUrl. rewrite Hc. simpl. run_promise.
  fold (merged m l w). fold (prepared m l w).
  rewrite getObj_prepared. fold (keyOf m url l w).
  unfold hitPath in Hhit.
  assert (Hmiss : forall ls0 w0, heap w0 = heap (prepared m l w) ->
    onMiss l (keyOf m url l w) cb ls0 w0
    = match cb (fileOf m url l w) ls0
               (setDisk (delete (fileOf m url l w) (disk w0))
                        (emit (FsDeleteFile (fileOf m url l w)) w0)) with
      | (Resolved _, ls', w') =>
          (Resolved (fileOf m url l w), ls', recorded m url l w w')
      | (Rejected e, ls', w') => (Rejected e, ls', w')
      end).
  { intros ls0 w0 Hh. unfold onMiss. run_promise.
    rewrite (getObj_heap l (prepared m l w) w0) by done.
    rewrite getObj_prepared. fold (locationOf m l w).
    fold (relOf m url l w). fold (fileOf m url l w).
    destruct (cb _ _ _) as [[[[]|e] ls'] w']; done. }
  unfold beforeMaterialize, lookupEvents.
  destruct (store w !! keyOf m url l w) as [[[|c r] t]|] eqn:Hs; simpl.
  - rewrite Hmiss by done. by world_eq.
  - unfold onLookup. run_promise.
    rewrite (getObj_heap l (prepared m l w)) by done.
    rewrite getObj_prepared. fold (locationOf m l w).
    destruct (bool_decide _); [done|].
    rewrite Hmiss by done. by world_eq.
  - rewrite Hmiss by done. by world_eq.
Qed.
End CacheUrlFacts.

Lemma orElse_idem {A} (x : option A) : orElse x x = x.
Proof. by destruct x. Qed.

Lemma orElse_absorb {A} (x y : option A) : orElse (orElse x y) y = orElse x y.
Proof. by destruct x, y. Qed.

Lemma defaults_idem o : defaults o o = o.
Proof. destruct o. unfold defaults. simpl. by rewrite !orElse_idem. Qed.

Lemma defaults_absorb o d : defaults (defaults o d) d = defaults o d.
Proof. unfold defaults. simpl. by rewrite !orElse_absorb. Qed.

Lemma setHeap_id w h : h = heap w -> setHeap h w = w.
Proof. intros ->. by destruct w. Qed.

Section PreparedFacts.
Variables (m : Manager) (l : nat).

Lemma merged_heap w w' : heap w' = heap w -> merged m l w' = merged m l w.
Proof. intros H. unfold merged. by rewrite !(getObj_heap _ _ _ H). Qed.

Lemma merged_idem w w1 :
  heap w1 = heap (prepared m l w) -> merged m l w1 = merged m l w.
Proof.
  intros H. rewrite (merged_heap _ _ H). unfold merged at 1.
  rewrite getObj_prepared.
  destruct (decide (defaultOptions m = l)) as [->|Hne].
  - rewrite getObj_prepared. unfold merged. by rewrite !defaults_idem.
  - assert (getObj (defaultOptions m) (prepared m l w)
            = getObj (defaultOptions m) w) as ->.
    { unfold getObj, prepared. simpl. by rewrite lookup_insert_ne. }
    apply defaults_absorb.
Qed.

Lemma prepared_idem w w1 :
  heap w1 = heap (prepared m l w) -> prepared m l w1 = w1.
Proof.
  intros H. unfold prepared at 1. apply setHeap_id.
  rewrite (merged_idem _ _ H), H. simpl. by rewrite insert_insert_eq.
Qed.
End PreparedFacts.

Lemma relative_path_nonempty k : getImageRelativeFilePath k <> "".
Proof.
  unfold getImageRelativeFilePath.
  by destruct (getHostCachePathComponent k).
Qed.

Section OperationFacts.
Context {L : Type}.
Variables (m : Manager) (url : JsValue) (l : nat).
Hypothesis Hc : isCacheable url = true.

Lemma isCachedURL_hit (ls : L) w p :
  hitPath m url l w = Some p ->
  isCachedURL m url (Some l) ls w
  = (Resolved true, ls, emitAll (lookupEvents m url l w) (prepared m l w)).
Proof.
  intros Hhit. unfold isCachedURL, optionsArg.
  unfold andThen at 1. unfold resolve at 1. unfold withLocals, andThen.
  by rewrite (cacheUrl_hit m url l _ Hc false w p Hhit).
Qed.

Lemma isCachedURL_miss (ls : L) w :
  hitPath m url l w = None ->
  isCachedURL m url (Some l) ls w
  = (Resolved false, ls, recorded m url l w (beforeMaterialize m url l w)).
Proof.
  intros Hhit. unfold isCachedURL, optionsArg.
  unfold andThen at 1. unfold resolve at 1. unfold withLocals, andThen.
  by rewrite (cacheUrl_miss m url l _ Hc false w Hhit).
Qed.

Lemma downloadAndCacheUrl_hit (ls : L) w p :
  hitPath m url l w = Some p ->
  downloadAndCacheUrl m url (Some l) ls w
  = (Resolved p, ls, emitAll (lookupEvents m url l w) (prepared m l w)).
Proof.
  intros Hhit. unfold downloadAndCacheUrl, optionsArg.
  unfold andThen at 1. unfold resolve at 1.
  by rewrite (cacheUrl_hit m url l _ Hc ls w p Hhit).
Qed.

Lemma downloadAndCacheUrl_miss (ls : L) w :
  hitPath m url l w = None ->
  downloadAndCacheUrl m url (Some l) ls w
  = match remote w !! asString url with
    | Some body =>
        (Resolved (fileOf m url l w), ls,
         recorded m url l w
           (downloaded url l (fileOf m url l w) body (beforeMaterialize m url l w)))
    | None =>
        (Rejected (DownloadFailed (asString url)), ls,
         emit (FsDownloadFile (asString url) (fileOf m url l w)
                 (headers (merged m l w)))
              (beforeMaterialize m url l w))
    end.
Proof.
  intros Hhit. unfold downloadAndCacheUrl, optionsArg.
  unfold andThen at 1. unfold resolve at 1.
  rewrite (cacheUrl_miss m url l _ Hc ls w Hhit). run_promise.
  rewrite (getObj_heap l (prepared m l w)) by done.
  rewrite getObj_prepared.
  destruct (remote w !! asString url) as [body|]; [|done].
  unfold downloaded.
  rewrite (getObj_heap l (prepared m l w) (beforeMaterialize m url l w)) by done.
  by rewrite getObj_prepared.
Qed.

Lemma seedAndCacheUrl_miss (ls : L) w seedPath :
  hitPath m url l w = None ->
  seedAndCacheUrl m url seedPath (Some l) ls w
  = let w0 := emit (FsCopyFile seedPath (fileOf m url l w))
                   (beforeMaterialize m url l w) in
    match disk w0 !! seedPath with
    | Some content =>
        (Resolved (fileOf m url l w), ls,
         recorded m url l w
           (setDisk (<[fileOf m url l w := content]> (disk w0)) w0))
    | None => (Rejected (CopyFailed seedPath), ls, w0)
    end.
Proof.
  intros Hhit. unfold seedAndCacheUrl, optionsArg.
  unfold andThen at 1. unfold resolve at 1.
  rewrite (cacheUrl_miss m url l _ Hc ls w Hhit). run_promise.
  by destruct (delete (fileOf m url l w) (disk w) !! seedPath).
Qed.
End OperationFacts.

Lemma cacheUrl_not_cacheable {L} m url l (cb : string -> Promise L unit) ls w :
  isCacheable url = false ->
  cacheUrl m url l cb ls w = (Rejected NotCacheable, ls, w).
Proof. intros H. unfold cacheUrl. by rewrite H. Qed.

Lemma lookupEvents_hit m url l w p :
  hitPath m url l w = Some p ->
  lookupEvents m url l w = [StoreGet (keyOf m url l w); FsExists p].
Proof.
  unfold hitPath, lookupEvents.
  destruct (store w !! keyOf m url l w) as [[[|c r] t]|]; try done.
  destruct (bool_decide _); [|done]. by intros [= <-].
Qed.

(** A world whose option objects are already completed and that holds the
    record and the file answers every lookup from the cache, whatever the
    materialize step is. *)
Lemma pure_hit {L} m url l w0 w p :
  isCacheable url = true ->
  heap w = heap (prepared m l w0) ->
  hitPath m url l w = Some p ->
  forall (cb : string -> Promise L unit) ls,
    cacheUrl m url l cb ls w
    = (Resolved p, ls, emitAll [StoreGet (keyOf m url l w); FsExists p] w).
Proof.
  intros Hc Hheap Hhit cb ls.
  rewrite (cacheUrl_hit m url l cb Hc ls w p Hhit).
  by rewrite (lookupEvents_hit _ _ _ _ _ Hhit), (prepared_idem _ _ _ _ Hheap).
Qed.

Lemma hitPath_same m url l w w' :
  merged m l w' = merged m l w -> store w' = store w -> disk w' = disk w ->
  hitPath m url l w' = hitPath m url l w.
Proof.
  intros Hm Hs Hd. unfold hitPath, keyOf, locationOf. by rewrite Hm, Hs, Hd.
Qed.

Lemma hitPath_after_download m url l w body :
  let w1 := recorded m url l w
              (downloaded url l (fileOf m url l w) body
                 (beforeMaterialize m url l w)) in
  hitPath m url l w1 = Some (fileOf m url l w).
Proof.
  intros w1.
  assert (Hm : merged m l w1 = merged m l w) by by apply merged_idem.
  unfold hitPath, keyOf, locationOf. rewrite Hm.
  fold (keyOf m url l w). fold (locationOf m l w).
  unfold w1 at 1. unfold recorded. simpl. rewrite lookup_insert_eq.
  pose proof (relative_path_nonempty (keyOf m url l w)) as Hne.
  fold (relOf m url l w) in *.
  destruct (relOf m url l w) as [|c r] eqn:Hrel; [done|].
  unfold fileOf. rewrite Hrel. simpl.
  rewrite lookup_insert_eq. by rewrite bool_decide_eq_true_2.
Qed.

Lemma keyOf_heap m url l w w' :
  heap w' = heap w -> keyOf m url l w' = keyOf m url l w.
Proof. intros H. unfold keyOf. by rewrite (merged_heap m l w w' H). Qed.

(** C1. Round trip: once [downloadAndCacheUrl] has resolved with a path,
    [isCachedURL] resolves with true, and a second [downloadAndCacheUrl],
    run at once or after that probe, resolves with the same path after
    one record-store read and one file-existence check only; the same
    holds of [cacheUrl] with any materialize step, which is therefore not
    invoked. *)
Theorem round_trip_pure_hit m url l w p w1 :
  run (downloadAndCacheUrl m url (Some l)) w = (Resolved p, w1) ->
  let lookup := [StoreGet (keyOf m url l w1); FsExists p] in
  run (isCachedURL m url (Some l)) w1 = (Resolved true, emitAll lookup w1)
  /\ run (downloadAndCacheUrl m url (Some l)) w1
     = (Resolved p, emitAll lookup w1)
  /\ run (downloadAndCacheUrl m url (Some l)) (emitAll lookup w1)
     = (Resolved p, emitAll lookup (emitAll lookup w1))
  /\ forall L (getCachedFile : string -> Promise L unit) ls,
       cacheUrl m url l getCachedFile ls w1
       = (Resolved p, ls, emitAll lookup w1).
Proof.
  intros Hrun lookup.
  assert (Hc : isCacheable url = true).
  { destruct (isCacheable url) eqn:Hc; [done|].
    unfold run, downloadAndCacheUrl, optionsArg in Hrun.
    unfold andThen at 1 in Hrun. unfold resolve at 1 in Hrun.
    by rewrite cacheUrl_not_cacheable in Hrun. }
  assert (heap w1 = heap (prepared m l w) /\ hitPath m url l w1 = Some p)
    as [Hheap Hhit].
  { unfold run in Hrun.
    destruct (hitPath m url l w) as [p0|] eqn:Hh.
    - rewrite (downloadAndCacheUrl_hit m url l Hc tt w p0 Hh) in Hrun.
      injection Hrun as <- <-. split; [done|].
      rewrite <- Hh. apply hitPath_same; [|done..]. by apply merged_idem.
    - rewrite (downloadAndCacheUrl_miss m url l Hc tt w Hh) in Hrun.
      destruct (remote w !! asString url) as [body|]; [|done].
      injection Hrun as <- <-. split; [done|].
      by apply hitPath_after_download. }
  assert (Hdl : forall w2, heap w2 = heap w1 -> store w2 = store w1 ->
            disk w2 = disk w1 ->
            run (downloadAndCacheUrl m url (Some l)) w2
            = (Resolved p, emitAll lookup w2)).
  { intros w2 Hh2 Hs2 Hd2.
    assert (Hhit2 : hitPath m url l w2 = Some p).
    { rewrite <- Hhit. apply hitPath_same; [|done..]. by apply merged_heap. }
    unfold run. rewrite (downloadAndCacheUrl_hit m url l Hc tt w2 p Hhit2).
    rewrite (lookupEvents_hit _ _ _ _ _ Hhit2), (keyOf_heap _ _ _ _ _ Hh2).
    rewrite (prepared_idem m l w w2); [done|]. by rewrite Hh2. }
  split; [|split; [|split]].
  - unfold run. rewrite (isCachedURL_hit m url l Hc tt w1 p Hhit).
    by rewrite (lookupEvents_hit _ _ _ _ _ Hhit), (prepared_idem _ _ _ _ Hheap).
  - by apply Hdl.
  - by apply Hdl.
  - intros L cb ls. by apply (pure_hit m url l w).
Qed.

Lemma dangling_is_miss m url l w rel t :
  store w !! keyOf m url l w = Some (rel, t) ->
  disk w !! (locationOf m l w +:+ "/" +:+ rel) = None ->
  hitPath m url l w = None.
Proof.
  intros Hs Hd. unfold hitPath. rewrite Hs.
  destruct rel as [|c r]; [done|]. by rewrite Hd.
Qed.

(** The lookup misses when there is no record, when the record is empty,
    or when the recorded file is not on disk. *)
Lemma hitPath_None_cases m url l w :
  hitPath m url l w = None
  <-> store w !! keyOf m url l w = None
      \/ (exists t, store w !! keyOf m url l w = Some ("", t))
      \/ (exists rel t, store w !! keyOf m url l w = Some (rel, t)
                        /\ disk w !! (locationOf m l w +:+ "/" +:+ rel) = None).
Proof.
  split.
  - unfold hitPath.
    destruct (store w !! keyOf m url l w) as [[[|c r] t]|] eqn:Hs; eauto.
    destruct (disk w !! _) as [b|] eqn:Hd; [|eauto 6].
    by rewrite bool_decide_eq_true_2.
  - intros [Hs|[[t Hs]|(rel & t & Hs & Hd)]].
    + unfold hitPath. by rewrite Hs.
    + unfold hitPath. by rewrite Hs.
    + by apply (dangling_is_miss m url l w rel t).
Qed.

Lemma getObj_beforeMaterialize m url l w :
  getObj l (beforeMaterialize m url l w) = merged m l w.
Proof.
  rewrite (getObj_heap l (prepared m l w)) by done. apply getObj_prepared.
Qed.

(** C3. Self-healing: with a record for the canonical URL whose file is
    not on disk, [isCachedURL] resolves with false, and
    [downloadAndCacheUrl] settles only with the derived file path or with
    the failure of the download itself; when the network serves the URL it
    deletes the derived path, downloads, writes a fresh record and resolves
    with the file path. *)
Theorem dangling_record_self_heals m url l w rel t :
  isCacheable url = true ->
  store w !! keyOf m url l w = Some (rel, t) ->
  disk w !! (locationOf m l w +:+ "/" +:+ rel) = None ->
  let key := keyOf m url l w in
  let file := fileOf m url l w in
  let fresh_rel := relOf m url l w in
  (exists w', run (isCachedURL m url (Some l)) w = (Resolved false, w'))
  /\ (forall r w', run (downloadAndCacheUrl m url (Some l)) w = (r, w') ->
        r = Resolved file \/ r = Rejected (DownloadFailed (asString url)))
  /\ (forall body, remote w !! asString url = Some body ->
        exists w',
          run (downloadAndCacheUrl m url (Some l)) w = (Resolved file, w')
          /\ log w' = (log w ++ lookupEvents m url l w ++
                      [FsDeleteFile file;
                       FsDownloadFile (asString url) file (headers (merged m l w));
                       StoreSet key fresh_rel (ttl (merged m l w))])%list
          /\ store w' !! key = Some (fresh_rel, ttl (merged m l w))
          /\ disk w' !! file = Some body).
Proof.
  intros Hc Hs Hd key file fresh_rel.
  pose proof (dangling_is_miss _ _ _ _ _ _ Hs Hd) as Hmiss.
  split; [|split].
  - eexists. unfold run. by rewrite (isCachedURL_miss m url l Hc tt w Hmiss).
  - intros r w'. unfold run.
    rewrite (downloadAndCacheUrl_miss m url l Hc tt w Hmiss).
    destruct (remote w !! asString url); intros [= <- <-]; auto.
  - intros body Hbody. eexists. unfold run.
    rewrite (downloadAndCacheUrl_miss m url l Hc tt w Hmiss), Hbody.
    split; [reflexivity|].
    unfold recorded, downloaded. cbn. rewrite !lookup_insert_eq.
    rewrite !(getObj_heap l (prepared m l w) (setDisk _ _)) by done.
    rewrite !getObj_prepared, ?getObj_beforeMaterialize.
    split; [|done]. by rewrite <- !app_assoc.
Qed.

(** C4. Failure of the materialize step: when the lookup misses and the
    step rejects, [cacheUrl] rejects with the same failure in the very
    world the step left, so nothing is written afterwards; for a failed
    download and for a failed copy the record store is unchanged and the
    log holds no write to it. *)
Theorem materialize_failure_writes_no_record m url l w :
  isCacheable url = true ->
  hitPath m url l w = None ->
  let file := fileOf m url l w in
  (forall L (getCachedFile : string -> Promise L unit) ls e ls' w',
      getCachedFile file ls (beforeMaterialize m url l w) = (Rejected e, ls', w') ->
      cacheUrl m url l getCachedFile ls w = (Rejected e, ls', w'))
  /\ (remote w !! asString url = None ->
      exists w',
        run (downloadAndCacheUrl m url (Some l)) w
        = (Rejected (DownloadFailed (asString url)), w')
        /\ store w' = store w
        /\ log w' = (log w ++ lookupEvents m url l w ++
                    [FsDeleteFile file;
                     FsDownloadFile (asString url) file (headers (merged m l w))])%list)
  /\ (forall seedPath, disk w !! seedPath = None ->
      exists w',
        run (seedAndCacheUrl m url seedPath (Some l)) w
        = (Rejected (CopyFailed seedPath), w')
        /\ store w' = store w
        /\ log w' = (log w ++ lookupEvents m url l w ++
                    [FsDeleteFile file; FsCopyFile seedPath file])%list).
Proof.
  intros Hc Hmiss file. subst file. split; [|split].
  - intros L cb ls e ls' w' Hcb.
    by rewrite (cacheUrl_miss m url l cb Hc ls w Hmiss), Hcb.
  - intros Hnet. eexists. unfold run.
    rewrite (downloadAndCacheUrl_miss m url l Hc tt w Hmiss), Hnet.
    split; [reflexivity|]. split; [done|]. cbn. by rewrite <- !app_assoc.
  - intros seedPath Hseed. eexists. unfold run.
    rewrite (seedAndCacheUrl_miss m url l Hc tt w seedPath Hmiss). cbn.
    assert (delete (fileOf m url l w) (disk w) !! seedPath = None) as ->.
    { rewrite lookup_delete. by case_decide. }
    split; [reflexivity|]. split; [done|]. cbn. by rewrite <- !app_assoc.
Qed.

(** C5. A probe that misses is not read-only: [isCachedURL] deletes the
    file at the derived path and writes a record that maps the canonical
    URL to the derived relative path with the time-to-live of the options,
    although nothing creates the file; the record it leaves points at a
    file that does not exist. *)
Theorem probe_miss_writes_record m url l w :
  isCacheable url = true ->
  hitPath m url l w = None ->
  let key := keyOf m url l w in
  let file := fileOf m url l w in
  exists w',
    run (isCachedURL m url (Some l)) w = (Resolved false, w')
    /\ log w' = (log w ++ lookupEvents m url l w ++
                [FsDeleteFile file;
                 StoreSet key (relOf m url l w) (ttl (merged m l w))])%list
    /\ store w' = <[key := (relOf m url l w, ttl (merged m l w))]> (store w)
    /\ disk w' = delete file (disk w)
    /\ store w' !! key = Some (relOf m url l w, ttl (merged m l w))
    /\ disk w' !! (locationOf m l w +:+ "/" +:+ relOf m url l w) = None.
Proof.
  intros Hc Hmiss key file. subst key file. eexists. unfold run.
  rewrite (isCachedURL_miss m url l Hc tt w Hmiss).
  split; [reflexivity|].
  unfold recorded. rewrite getObj_beforeMaterialize. cbn.
  rewrite lookup_insert_eq, lookup_delete_eq.
  repeat split; try done. by rewrite <- !app_assoc.
Qed.

Lemma prefix_lower_split p s :
  String.prefix p (Js.toLowerCase s) = true -> startsWithIgnoringCase s p.
Proof.
  revert s. induction p as [|c p IH]; intros s H.
  - by exists "", s.
  - destruct s as [|d s]; [done|]. simpl in H.
    destruct (ascii_dec c (Js.lowerChar d)) as [->|]; [|done].
    destruct (IH s H) as (a & b & -> & <-).
    by exists (String d a), b.
Qed.

Lemma prefix_lower_app a b :
  String.prefix (Js.toLowerCase a) (Js.toLowerCase (a +:+ b)) = true.
Proof.
  induction a as [|c a IH].
  - change ("" +:+ b) with b. by destruct (Js.toLowerCase b).
  - change (String c a +:+ b) with (String c (a +:+ b)). simpl.
    by destruct (ascii_dec _ _).
Qed.

Lemma startsWith_spec s p :
  Js.startsWith (Js.toLowerCase s) p = true <-> startsWithIgnoringCase s p.
Proof.
  split; [apply prefix_lower_split|].
  intros (a & b & -> & <-). apply prefix_lower_app.
Qed.

Lemma isCacheable_spec v : isCacheable v = true <-> HttpUrl v.
Proof.
  split.
  - destruct v as [| | | |s]; try done. simpl.
    intros [H|H]%orb_true_iff; exists s; (split; [done|]);
      [left|right]; by apply startsWith_spec.
  - intros (s & -> & [H|H]); simpl; apply orb_true_iff;
      [left|right]; by apply startsWith_spec.
Qed.

Lemma not_HttpUrl v : ~ HttpUrl v -> isCacheable v = false.
Proof.
  intros H. destruct (isCacheable v) eqn:E; [|done].
  by apply isCacheable_spec in E.
Qed.

(** C8. A [url] that is not a string starting with [http://] or
    [https://], letter case ignored, makes [isURLCacheable] answer false
    and makes [isCachedURL], [downloadAndCacheUrl], [seedAndCacheUrl] and
    [deleteUrl] reject with the not-cacheable error with no collaborator
    call made: the log, the record store, the disk and the network are
    as before, and so is the whole world when an options object is
    supplied. *)
Theorem not_cacheable_rejects_without_io m url :
  ~ HttpUrl url ->
  isURLCacheable url = false
  /\ forall c w, urlOf c = Some url ->
       exists w',
         run (perform m c) w = (Rejected NotCacheable, w')
         /\ log w' = log w /\ store w' = store w /\ disk w' = disk w
         /\ remote w' = remote w
         /\ (is_Some (optionsOf c) -> w' = w).
Proof.
  intros Hn%not_HttpUrl. split; [done|].
  intros c w Hurl.
  destruct c as [u o|u o|u s o|u o|o|o]; simplify_eq/=;
    destruct o as [l|]; eexists; unfold run, perform,
      isCachedURL, downloadAndCacheUrl, seedAndCacheUrl, deleteUrl, optionsArg;
      run_promise; rewrite ?cacheUrl_not_cacheable, ?Hn by done; cbn;
      (split; [reflexivity|]); cbn; repeat split; try done;
      by intros [? [=]].
Qed.

Section Preserves.
Context {L : Type} (P : World -> Prop).

Lemma preserves_resolve {A} (a : A) : preserves P (@resolve L A a).
Proof. by intros ls w. Qed.
Lemma preserves_reject {A} e : preserves P (@reject L A e).
Proof. by intros ls w. Qed.
Lemma preserves_readWorld {A} (f : World -> A) : preserves P (@readWorld L A f).
Proof. by intros ls w. Qed.
Lemma preserves_getLocal : preserves P (@getLocal L).
Proof. by intros ls w. Qed.
Lemma preserves_setLocal v : preserves P (@setLocal L v).
Proof. by intros ls w. Qed.
Lemma preserves_updWorld f :
  (forall w, P w -> P (f w)) -> preserves P (@updWorld L f).
Proof. intros H ls w. apply H. Qed.

Lemma preserves_andThen {A B} (p : Promise L A) (k : A -> Promise L B) :
  preserves P p -> (forall a, preserves P (k a)) -> preserves P (andThen p k).
Proof.
  intros Hp Hk ls w Hw. unfold andThen. specialize (Hp ls w Hw).
  destruct (p ls w) as [[[a|e] ls'] w']; [by apply Hk|done].
Qed.

Lemma preserves_catch {A} (p : Promise L A) (k : Error -> Promise L A) :
  preserves P p -> (forall e, preserves P (k e)) -> preserves P (catch p k).
Proof.
  intros Hp Hk ls w Hw. unfold catch. specialize (Hp ls w Hw).
  destruct (p ls w) as [[[a|e] ls'] w']; [done|by apply Hk].
Qed.

Lemma preserves_withLocals {L' A} (init : L') (p : Promise L' A) :
  preserves P p -> preserves P (@withLocals L L' A init p).
Proof.
  intros Hp ls w Hw. unfold withLocals. specialize (Hp init w Hw).
  by destruct (p init w) as [[? ?] ?].
Qed.
End Preserves.

Lemma heapOf_same_heap m l w0 w w' : heap w' = heap w -> heapOf m l w0 w -> heapOf m l w0 w'.
Proof. unfold heapOf. by intros ->. Qed.

Lemma heapOf_defaults m l w0 w :
  heapOf m l w0 w -> heapOf m l w0 (prepared m l w).
Proof.
  intros [H|H]; right.
  - unfold prepared. simpl. by rewrite (merged_heap m l _ _ H), H.
  - by rewrite (prepared_idem m l w0 w H).
Qed.

Section HeapFacts.
Variables (m : Manager) (l : nat) (w0 : World).
Context {L : Type}.

Lemma preserves_heap_update (f : World -> World) :
  (forall w, heap (f w) = heap w) -> preserves (heapOf m l w0) (@updWorld L f).
Proof.
  intros H. apply preserves_updWorld. intros w.
  by apply heapOf_same_heap.
Qed.

Lemma preserves_defaultsInPlace :
  preserves (heapOf m l w0) (@defaultsInPlace L l (defaultOptions m)).
Proof. apply preserves_updWorld. apply heapOf_defaults. Qed.
End HeapFacts.

Ltac preserves_tac :=
  unfold urlCache_get, urlCache_set, urlCache_remove, urlCache_flush,
    fs_exists, fs_deleteFile, fs_downloadFile, fs_copyFile, fs_cleanDir,
    fs_getDirInfo;
  repeat (intros; first
    [ apply preserves_andThen | apply preserves_catch
    | apply preserves_withLocals | apply preserves_defaultsInPlace
    | apply preserves_resolve | apply preserves_reject
    | apply preserves_readWorld | apply preserves_getLocal
    | apply preserves_setLocal
    | apply preserves_heap_update; intros; reflexivity
    | match goal with
      | |- preserves _ (match ?x with _ => _ end) => destruct x
      end ]).

Section BodyHeap.
Variables (m : Manager) (l : nat) (w0 : World).
Context {L : Type}.

Lemma cacheUrl_preserves url (cb : string -> Promise L unit) :
  (forall p, preserves (heapOf m l w0) (cb p)) ->
  preserves (heapOf m l w0) (cacheUrl m url l cb).
Proof.
  intros Hcb. unfold cacheUrl, onLookup, onMiss.
  destruct (negb (isCacheable url)); preserves_tac. apply Hcb.
Qed.
End BodyHeap.

Lemma optionsArg_run {L} o (ls : L) w :
  optionsArg o ls w = (Resolved (entry o w).1, ls, (entry o w).2).
Proof. by destruct o. Qed.

Lemma run_world_then {A B} (p : Promise unit A) (v : A -> B) w :
  (run (x <- p ;; resolve (v x)) w).2 = (p tt w).2.
Proof.
  unfold run, andThen, resolve. by destruct (p tt w) as [[[a|e] []] w'].
Qed.

Lemma run_world_seq {A B} (p : Promise unit A) (v : B) w :
  (run (p ;;; resolve v) w).2 = (p tt w).2.
Proof. apply (run_world_then p (fun _ => v)). Qed.

Lemma entry_then_preserves {A} m o (k : nat -> Promise unit A) w :
  (forall l w0, preserves (heapOf m l w0) (k l)) ->
  heapOf m (entry o w).1 (entry o w).2 ((andThen (optionsArg o) k) tt w).2.
Proof.
  intros Hk. unfold andThen at 1. rewrite optionsArg_run.
  apply Hk. by left.
Qed.

(** The heap a call leaves is the heap its body started with, up to the
    completion of the options object it works on. *)
Lemma perform_heapOf m c w :
  heapOf m (entry (optionsOf c) w).1 (entry (optionsOf c) w).2
         (run (perform m c) w).2.
Proof.
  destruct c as [u o|u o|u s o|u o|o|o]; simpl;
    rewrite ?run_world_then, ?run_world_seq;
    apply entry_then_preserves; intros l w0.
  - apply preserves_withLocals, preserves_andThen; [|preserves_tac].
    apply cacheUrl_preserves. preserves_tac.
  - apply cacheUrl_preserves. preserves_tac.
  - apply cacheUrl_preserves. preserves_tac.
  - destruct (negb (isCacheable u)); preserves_tac.
  - preserves_tac.
  - preserves_tac.
Qed.

Lemma getObj_prepared_ne m l l' w : l' <> l -> getObj l' (prepared m l w) = getObj l' w.
Proof. intros H. unfold getObj, prepared. simpl. by rewrite lookup_insert_ne. Qed.

Lemma getObj_defaults_prepared m l w :
  getObj (defaultOptions m) (prepared m l w) = getObj (defaultOptions m) w.
Proof.
  destruct (decide (defaultOptions m = l)) as [<-|Hne].
  - rewrite getObj_prepared. unfold merged. apply defaults_idem.
  - by apply getObj_prepared_ne.
Qed.

Lemma entry_getObj o w l : getObj l (entry o w).2 = getObj l w.
Proof.
  destruct o as [l0|]; [done|]. simpl.
  unfold getObj. simpl.
  destruct (decide (fresh (dom (heap w)) = l)) as [<-|Hne].
  - rewrite lookup_insert_eq.
    assert (heap w !! fresh (dom (heap w)) = None) as ->; [|done].
    apply not_elem_of_dom, is_fresh.
  - by rewrite lookup_insert_ne.
Qed.

Lemma perform_heap_exact m c l w :
  optionsOf c = Some l ->
  heap (run (perform m c) w).2
  = if completes c then heap (prepared m l w) else heap w.
Proof.
  intros Ho. unfold completes.
  destruct c as [u o|u o|u s o|u o|o|o]; simpl in *; subst o;
    rewrite ?run_world_then, ?run_world_seq.
  - destruct (isCacheable u) eqn:Hc; unfold isCachedURL, optionsArg;
      unfold andThen at 1, resolve at 1; unfold withLocals, andThen.
    + destruct (hitPath m u l w) as [p|] eqn:Hh.
      * by rewrite (cacheUrl_hit m u l _ Hc false w p Hh).
      * by rewrite (cacheUrl_miss m u l _ Hc false w Hh).
    + by rewrite cacheUrl_not_cacheable.
  - destruct (isCacheable u) eqn:Hc.
    + destruct (hitPath m u l w) as [p|] eqn:Hh.
      * by rewrite (downloadAndCacheUrl_hit m u l Hc tt w p Hh).
      * rewrite (downloadAndCacheUrl_miss m u l Hc tt w Hh).
        by destruct (remote w !! asString u).
    + unfold downloadAndCacheUrl, optionsArg. unfold andThen at 1, resolve at 1.
      by rewrite cacheUrl_not_cacheable.
  - destruct (isCacheable u) eqn:Hc.
    + destruct (hitPath m u l w) as [p|] eqn:Hh.
      * unfold seedAndCacheUrl, optionsArg. unfold andThen at 1, resolve at 1.
        by rewrite (cacheUrl_hit m u l _ Hc tt w p Hh).
      * rewrite (seedAndCacheUrl_miss m u l Hc tt w s Hh). cbn.
        by destruct (delete (fileOf m u l w) (disk w) !! s).
    + unfold seedAndCacheUrl, optionsArg. unfold andThen at 1, resolve at 1.
      by rewrite cacheUrl_not_cacheable.
  - unfold deleteUrl, optionsArg. by destruct (isCacheable u).
  - done.
  - done.
Qed.

(** C9 (as the code has it). During a call the default options object
    keeps its value and no options object other than the one the call
    works on is written; the object the caller supplies is completed in
    place from the defaults (no copy is made) as soon as the call passes
    the URL check, each property the caller set keeping its value. *)
Theorem options_completed_in_place m c w :
  let w' := (run (perform m c) w).2 in
  getObj (defaultOptions m) w' = getObj (defaultOptions m) w
  /\ (forall l o, heap w !! l = Some o -> optionsOf c <> Some l ->
        heap w' !! l = Some o)
  /\ (forall l, optionsOf c = Some l ->
        getObj l w'
        = if completes c
          then defaults (getObj l w) (getObj (defaultOptions m) w)
          else getObj l w)
  /\ (forall o d, headers o <> None -> headers (defaults o d) = headers o)
  /\ (forall o d, ttl o <> None -> ttl (defaults o d) = ttl o)
  /\ (forall o d, useQueryParamsInCacheKey o <> None ->
        useQueryParamsInCacheKey (defaults o d) = useQueryParamsInCacheKey o)
  /\ (forall o d, cacheLocation o <> None ->
        cacheLocation (defaults o d) = cacheLocation o)
  /\ (forall o d, allowSelfSignedSSL o <> None ->
        allowSelfSignedSSL (defaults o d) = allowSelfSignedSSL o).
Proof.
  intros w'. subst w'.
  pose proof (perform_heapOf m c w) as Hheap.
  split; [|split; [|split]].
  - rewrite <- (entry_getObj (optionsOf c) w (defaultOptions m)).
    destruct Hheap as [H|H].
    + by apply getObj_heap.
    + rewrite (getObj_heap _ _ _ H). apply getObj_defaults_prepared.
  - intros l o Hl Hne.
    assert (Hentry : heap (entry (optionsOf c) w).2 !! l = Some o).
    { destruct (optionsOf c) as [l0|]; [done|]. simpl.
      rewrite lookup_insert_ne; [done|]. intros <-.
      apply (is_fresh (dom (heap w))), elem_of_dom. by rewrite Hl. }
    assert (Hl' : (entry (optionsOf c) w).1 <> l).
    { destruct (optionsOf c) as [l0|]; simpl; [congruence|]. intros <-.
      apply (is_fresh (dom (heap w))), elem_of_dom. by rewrite Hl. }
    destruct Hheap as [->| ->]; [done|].
    simpl. by rewrite lookup_insert_ne.
  - intros l Ho. unfold getObj at 1.
    rewrite (perform_heap_exact m c l w Ho).
    destruct (completes c); [|done].
    simpl. by rewrite lookup_insert_eq.
  - repeat split; intros o d H; unfold defaults; simpl;
      match goal with |- orElse ?x _ = _ => by destruct x end.
Qed.

Section SortBy.
Lemma insertBy_perm x l : Js.insertBy x l ≡ₚ x :: l.
Proof.
  induction l as [|y r IH]; simpl; [done|].
  destruct (String.leb _ _); [done|].
  rewrite IH. apply perm_swap.
Qed.

Lemma sortBy_perm l : Js.sortBy l ≡ₚ l.
Proof.
  induction l as [|x l IH]; simpl; [done|].
  by rewrite insertBy_perm, IH.
Qed.

Lemma insertBy_sorted x l :
  StronglySorted keyLe l -> StronglySorted keyLe (Js.insertBy x l).
Proof.
  induction 1 as [|y r Hr IH Hy]; simpl.
  - repeat constructor.
  - destruct (String.leb x.1 y.1) eqn:Hxy.
    + constructor; [by constructor|].
      assert (keyLe x y) as Hle by (unfold keyLe, String.le; by rewrite Hxy).
      constructor; [done|].
      eapply Forall_impl; [exact Hy|]. intros z Hz.
      unfold keyLe in *. by etrans.
    + constructor; [done|].
      rewrite insertBy_perm. constructor; [|done].
      unfold keyLe. destruct (total String.le y.1 x.1) as [|Hle]; [done|].
      unfold String.le in Hle. by rewrite Hxy in Hle.
Qed.

Lemma sortBy_sorted l : StronglySorted keyLe (Js.sortBy l).
Proof.
  induction l as [|x l IH]; simpl; [constructor|by apply insertBy_sorted].
Qed.

Lemma NoDup_fst_inj (l : list (string * string)) x y :
  NoDup l.*1 -> x ∈ l -> y ∈ l -> x.1 = y.1 -> x = y.
Proof.
  induction l as [|z l IH]; simpl; [by intros _ ?%elem_of_nil|].
  intros [Hz Hl]%NoDup_cons [->|Hx]%elem_of_cons [->|Hy]%elem_of_cons Heq;
    [done| | |by apply IH].
  - exfalso. apply Hz. rewrite Heq. by apply list_elem_of_fmap_2.
  - exfalso. apply Hz. rewrite <- Heq. by apply list_elem_of_fmap_2.
Qed.

(** Sorting by key forgets the order of the input when the keys are
    pairwise distinct. *)
Lemma sortBy_permutation l1 l2 :
  NoDup l1.*1 -> l1 ≡ₚ l2 -> Js.sortBy l1 = Js.sortBy l2.
Proof.
  intros Hnd Hp.
  apply (StronglySorted_unique_strong keyLe); try apply sortBy_sorted.
  - intros x1 x2 H1 H2 H12 H21.
    apply (NoDup_fst_inj l1); [done| | |].
    + by rewrite <- (sortBy_perm l1).
    + by rewrite Hp, <- (sortBy_perm l2).
    + by apply (anti_symm String.le).
  - by rewrite !sortBy_perm.
Qed.
End SortBy.

Section Objects.
Lemma get_Some_elem k v (o : Js.Obj) :
  NoDup o.*1 -> Js.get k o = Some v <-> (k, v) ∈ o.
Proof.
  induction o as [|[k' v'] o IH]; simpl.
  - intros _. split; [done|by intros ?%elem_of_nil].
  - intros [Hk Ho]%NoDup_cons.
    destruct (String.eqb_spec k' k) as [->|Hne].
    + split; [intros [= ->]; by left|].
      intros [[= ->]|Hin]%elem_of_cons; [done|].
      exfalso. apply Hk. by apply (list_elem_of_fmap_2 fst) in Hin.
    + rewrite IH by done. split; [by right|].
      intros [[= -> ->]|Hin]%elem_of_cons; done.
Qed.

Lemma get_permutation k (o1 o2 : Js.Obj) :
  NoDup o1.*1 -> o1 ≡ₚ o2 -> Js.get k o1 = Js.get k o2.
Proof.
  intros Hnd Hp.
  assert (Hnd2 : NoDup o2.*1) by by rewrite <- Hp.
  destruct (Js.get k o1) as [v|] eqn:H1.
  - symmetry. apply get_Some_elem; [done|]. rewrite <- Hp.
    by apply get_Some_elem.
  - destruct (Js.get k o2) as [v|] eqn:H2; [|done].
    apply get_Some_elem in H2; [|done]. rewrite <- Hp in H2.
    apply get_Some_elem in H2; [|done]. congruence.
Qed.

Lemma pickInto_permutation acc (o1 o2 : Js.Obj) names :
  NoDup o1.*1 -> o1 ≡ₚ o2 ->
  Js.pickInto acc o1 names = Js.pickInto acc o2 names.
Proof.
  intros Hnd Hp. revert acc.
  induction names as [|n ns IH]; intros acc; simpl; [done|].
  rewrite (get_permutation n o1 o2 Hnd Hp).
  by destruct (Js.get n o2).
Qed.

Lemma get_None_set k v (o : Js.Obj) :
  Js.get k o = None -> Js.set k v o = o ++ [(k, v)] /\ k ∉ o.*1.
Proof.
  induction o as [|[k' v'] o IH]; simpl.
  - intros _. split; [done|]. by intros ?%elem_of_nil.
  - destruct (String.eqb_spec k' k) as [->|Hne]; [done|].
    intros [-> Hk]%IH. split; [done|].
    by intros [->|?]%elem_of_cons.
Qed.

Lemma parseQuery_NoDup fuel q (result : Js.Obj) :
  NoDup result.*1 -> NoDup (UrlParse.parseQuery fuel q result).*1.
Proof.
  revert q result. induction fuel as [|fuel IH]; intros q result Hnd; [done|].
  simpl. destruct (UrlParse.span _ q) as [? q1].
  destruct q1 as [|c q1]; [done|].
  destruct (UrlParse.span _ (String c q1)) as [key q2].
  destruct (UrlParse.span _ _) as [value q4].
  apply IH. destruct (Js.get key result) eqn:Hg; [done|].
  destruct (get_None_set key value result Hg) as [-> Hk].
  rewrite fmap_app. apply NoDup_app. split; [done|]. split.
  - intros x Hx [->|?%elem_of_nil]%elem_of_cons; done.
  - apply NoDup_singleton.
Qed.

Lemma parse_query_NoDup url : NoDup (UrlParse.query (UrlParse.parse url)).*1.
Proof.
  unfold UrlParse.parse.
  destruct (UrlParse.extractProtocol url) as [[proto sl] rest].
  destruct (UrlParse.cutAt "#" rest) as [rest1 h].
  destruct (UrlParse.cutAt "?" rest1) as [rest2 q].
  destruct (if sl then _ else _) as [hst path]. simpl.
  apply parseQuery_NoDup. constructor.
Qed.
End Objects.

Section FileTypes.
Lemma typeOf_allow_listed fileName : In (typeOf fileName) defaultImageTypes.
Proof.
  unfold typeOf.
  set (fileType := if (1 <? _)%nat then _ else _).
  destruct (existsb (String.eqb fileType) defaultImageTypes) eqn:He.
  - apply existsb_exists in He as (t & Hin & ->%String.eqb_eq). done.
  - simpl. tauto.
Qed.

Lemma split_no_sep c s : occurs c s = false -> Js.split c s = [s].
Proof.
  induction s as [|d s IH]; simpl; [done|].
  intros [Hd Hs]%orb_false_iff. rewrite Hd, IH; done.
Qed.

Lemma split_cons_last c d s :
  (1 < length (Js.split c s))%nat ->
  (1 < length (Js.split c (String d s)))%nat
  /\ List.last (Js.split c (String d s)) "" = List.last (Js.split c s) "".
Proof.
  simpl. destruct (Ascii.eqb d c).
  - destruct (Js.split c s) as [|p ps]; simpl; [lia|]. intros _. split; [lia|done].
  - destruct (Js.split c s) as [|p [|p' ps]]; simpl; try lia.
    intros _. split; [lia|done].
Qed.

Lemma split_app_last c name ext :
  occurs c ext = false ->
  (1 < length (Js.split c (name +:+ String c ext)))%nat
  /\ List.last (Js.split c (name +:+ String c ext)) "" = ext.
Proof.
  intros Hext. induction name as [|d name IH].
  - change ("" +:+ String c ext) with (String c ext). simpl.
    rewrite Ascii.eqb_refl, (split_no_sep c ext Hext). simpl. split; [lia|done].
  - change (String d name +:+ String c ext)
      with (String d (name +:+ String c ext)).
    destruct IH as [Hlen Hlast].
    destruct (split_cons_last c d _ Hlen) as [Hlen' Hlast'].
    split; [done|]. by rewrite Hlast'.
Qed.

(** The resolved extension: the text after the last dot, lowercased, when
    it is on the allow-list, and [jpg] otherwise or when there is no
    dot. *)
Lemma typeOf_extension name ext :
  occurs "." ext = false ->
  typeOf (name +:+ "." +:+ ext)
  = if existsb (String.eqb (Js.toLowerCase ext)) defaultImageTypes
    then Js.toLowerCase ext else "jpg".
Proof.
  intros Hext. unfold typeOf.
  change (name +:+ "." +:+ ext) with (name +:+ String "." ext).
  destruct (split_app_last "." name ext Hext) as [Hlen ->].
  apply Nat.ltb_lt in Hlen. by rewrite Hlen.
Qed.

Lemma typeOf_no_extension name : occurs "." name = false -> typeOf name = "jpg".
Proof. intros H. unfold typeOf. by rewrite (split_no_sep "." name H). Qed.
End FileTypes.

(** C2 (as stated, refuted). The cache key of
    [http://example.com/a/b/pic.PNG] is not the SHA-1 of [/a/b/pic.png]
    followed by [.png]. *)
Lemma pic_key_is_not_sha1_of_lowercased_path :
  ~ (getImageRelativeFilePath "http://example.com/a/b/pic.PNG"
     = "example_com_" +:+ Sha1.SHA1 "example.com" +:+ "/"
       +:+ Sha1.SHA1 "/a/b/pic.png" +:+ ".png").
Proof. vm_compute. discriminate. Qed.

(** C2 (as the code has it). For [http://example.com/a/b/pic.PNG] the host
    bucket is [example_com_] followed by the SHA-1 of [example.com], and
    the cache key is the SHA-1 of [/a/bpic.PNGpng] (the directory [/a/b],
    the file name [pic.PNG] in its own letter case and the resolved
    extension [png], put together without separators, the query part being
    empty) followed by [.png]; the extension is the lowercased text after
    the last dot when that is one of png, jpeg, jpg, gif, bmp, tiff, tif,
    and jpg otherwise or when the name has no dot. *)
Theorem pic_relative_path :
  let url := "http://example.com/a/b/pic.PNG" in
  getHostCachePathComponent url = "example_com_" +:+ Sha1.SHA1 "example.com"
  /\ cacheable url (UseBool true) = "/a/bpic.PNGpng"
  /\ generateCacheKey url (UseBool true) = Sha1.SHA1 "/a/bpic.PNGpng" +:+ ".png"
  /\ getImageRelativeFilePath url
     = "example_com_" +:+ Sha1.SHA1 "example.com" +:+ "/"
       +:+ Sha1.SHA1 "/a/bpic.PNGpng" +:+ ".png"
  /\ (forall fileName, In (typeOf fileName) defaultImageTypes)
  /\ (forall name ext, occurs "." ext = false ->
        typeOf (name +:+ "." +:+ ext)
        = if existsb (String.eqb (Js.toLowerCase ext)) defaultImageTypes
          then Js.toLowerCase ext else "jpg")
  /\ (forall name, occurs "." name = false -> typeOf name = "jpg").
Proof.
  repeat split; try (vm_compute; reflexivity).
  - apply typeOf_allow_listed.
  - apply typeOf_extension.
  - apply typeOf_no_extension.
Qed.

(** C6. The two formula URLs [http://h/cgi-bin/math.cgi?x=1] and
    [http://h/cgi-bin/math.cgi?x=2] get distinct cache keys, whatever the
    query policy: the hashed string ends with the sum of the hash codes of
    the two halves of the text from the marker on, and the sums differ.
    The derivation is a function of the URL, so repeated calls agree. *)
Theorem formula_urls_distinct_keys :
  let u1 := "http://h/cgi-bin/math.cgi?x=1" in
  let u2 := "http://h/cgi-bin/math.cgi?x=2" in
  Js.includes formulaFlag u1 = true /\ Js.includes formulaFlag u2 = true
  /\ (forall p,
        cacheable u1 p
        = "/cgi-binmath.cgijpg"
          +:+ Js.numberToString (hashCode "cgi-bin/ma" + hashCode "th.cgi?x=1"))
  /\ (forall p,
        cacheable u2 p
        = "/cgi-binmath.cgijpg"
          +:+ Js.numberToString (hashCode "cgi-bin/ma" + hashCode "th.cgi?x=2"))
  /\ (hashCode "cgi-bin/ma" + hashCode "th.cgi?x=1"
      <> hashCode "cgi-bin/ma" + hashCode "th.cgi?x=2")%Z
  /\ (forall p q, generateCacheKey u1 p <> generateCacheKey u2 q)
  /\ (forall u p, generateCacheKey u p = generateCacheKey u p).
Proof.
  repeat split; try (intros; vm_compute; reflexivity).
  - vm_compute. discriminate.
  - intros p q. vm_compute. discriminate.
Qed.

(** C10. Only the values of the query parameters, in the order of their
    names, enter the hashed string: the distinct URLs
    [http://h/p.png?a=1&b=2] and [http://h/p.png?a=1&c=2] get the same
    cache key and the same relative path. *)
Theorem parameter_names_are_dropped :
  let u1 := "http://h/p.png?a=1&b=2" in
  let u2 := "http://h/p.png?a=1&c=2" in
  u1 <> u2
  /\ ImageCacheManager.isCacheable (ImageCacheManager.JsString u1) = true
  /\ ImageCacheManager.isCacheable (ImageCacheManager.JsString u2) = true
  /\ query (parse u1) = [("a", "1"); ("b", "2")]
  /\ query (parse u2) = [("a", "1"); ("c", "2")]
  /\ serializeObjectKeys (query (parse u1)) = ["1"; "2"]
  /\ serializeObjectKeys (query (parse u2)) = ["1"; "2"]
  /\ generateCacheKey u1 (UseBool true) = generateCacheKey u2 (UseBool true)
  /\ getImageRelativeFilePath u1 = getImageRelativeFilePath u2
  /\ (forall o : Js.Obj, serializeObjectKeys o = (Js.sortBy o).*2).
Proof.
  repeat split; try (vm_compute; reflexivity).
  vm_compute. discriminate.
Qed.

Lemma serializeObjectKeys_permutation (o1 o2 : Js.Obj) :
  NoDup o1.*1 -> o1 ≡ₚ o2 -> serializeObjectKeys o1 = serializeObjectKeys o2.
Proof.
  intros Hnd Hp. unfold serializeObjectKeys, Js.toPairs.
  by rewrite (sortBy_permutation o1 o2 Hnd Hp).
Qed.

(** C7 (as stated, refuted). The URLs [http://h/p.png?a=1&a=2] and
    [http://h/p.png?a=2&a=1] are cacheable, outside the formula family and
    the same except for the order of their query parameters, yet they get
    different relative paths: a name that is repeated keeps its first
    value, so the two query dictionaries hold different values. *)
Lemma repeated_name_order_changes_the_path :
  let u1 := "http://h/p.png?a=1&a=2" in
  let u2 := "http://h/p.png?a=2&a=1" in
  ImageCacheManager.isCacheable (ImageCacheManager.JsString u1) = true
  /\ ImageCacheManager.isCacheable (ImageCacheManager.JsString u2) = true
  /\ Js.includes formulaFlag u1 = false
  /\ Js.includes formulaFlag u2 = false
  /\ protocol (parse u1) = protocol (parse u2)
  /\ host (parse u1) = host (parse u2)
  /\ pathname (parse u1) = pathname (parse u2)
  /\ query (parse u1) = [("a", "1")]
  /\ query (parse u2) = [("a", "2")]
  /\ serializeObjectKeys (query (parse u1)) = ["1"]
  /\ serializeObjectKeys (query (parse u2)) = ["2"]
  /\ generateCacheKey u1 (UseBool true) <> generateCacheKey u2 (UseBool true)
  /\ getImageRelativeFilePath u1 <> getImageRelativeFilePath u2.
Proof.
  cbv zeta. do 11 (split; [vm_compute; reflexivity|]).
  split; vm_compute; discriminate.
Qed.

(** C7 (as the code has it). Two URLs outside the formula family with the
    same host and path whose query dictionaries hold the same parameters
    in a different order get the same relative path, and the same cache
    key under every query policy: the parameters are sorted by name before
    their values are joined.  A dictionary holds each name once, so this
    covers the URLs in which no parameter name is repeated. *)
Theorem query_order_is_irrelevant u1 u2 :
  Js.includes formulaFlag u1 = false ->
  Js.includes formulaFlag u2 = false ->
  host (parse u1) = host (parse u2) ->
  pathname (parse u1) = pathname (parse u2) ->
  query (parse u1) ≡ₚ query (parse u2) ->
  getImageRelativeFilePath u1 = getImageRelativeFilePath u2
  /\ forall policy, generateCacheKey u1 policy = generateCacheKey u2 policy.
Proof.
  intros Hf1 Hf2 Hhost Hpath Hq.
  pose proof (parse_query_NoDup u1) as Hnd.
  assert (Hkey : forall policy, generateCacheKey u1 policy = generateCacheKey u2 policy).
  { intros policy. rewrite !generateCacheKey_unfold. unfold cacheable.
    rewrite Hf1, Hf2. unfold fileNameOf, filePathOf. rewrite Hpath.
    do 3 f_equal. do 3 f_equal.
    destruct policy as [[|]|names]; simpl; [| done |].
    - by rewrite (serializeObjectKeys_permutation _ _ Hnd Hq).
    - unfold Js.pick. by rewrite (pickInto_permutation [] _ _ names Hnd Hq). }
  split; [|done].
  unfold getImageRelativeFilePath, getHostCachePathComponent.
  by rewrite Hhost, Hkey.
Qed.

(** The hypotheses of C7 hold of two URLs that differ in the order of
    their two parameters. *)
Lemma query_order_is_irrelevant_witness :
  let u1 := "http://h/p.png?a=1&b=2" in
  let u2 := "http://h/p.png?b=2&a=1" in
  getImageRelativeFilePath u1 = getImageRelativeFilePath u2
  /\ forall policy, generateCacheKey u1 policy = generateCacheKey u2 policy.
Proof.
  apply (query_order_is_irrelevant "http://h/p.png?a=1&b=2" "http://h/p.png?b=2&a=1");
    try (vm_compute; reflexivity).
  vm_compute. apply perm_swap.
Defined.

(** The hypothesis of C1 holds of a first download with the caller's
    options in the scenario. *)
Lemma round_trip_pure_hit_witness :
  run (downloadAndCacheUrl manager0 url0 (Some 1%nat)) world2
  = (Resolved path0, world3)
  /\ run (isCachedURL manager0 url0 (Some 1%nat)) world3
     = (Resolved true,
        emitAll [StoreGet (keyOf manager0 url0 1 world3); FsExists path0] world3).
Proof.
  assert (H : run (downloadAndCacheUrl manager0 url0 (Some 1%nat)) world2
              = (Resolved path0, world3)) by (vm_compute; reflexivity).
  split; [exact H|].
  exact (proj1 (round_trip_pure_hit manager0 url0 1 world2 path0 world3 H)).
Defined.

(** The hypotheses of C3 hold once the cached file of the scenario is
    deleted behind the manager's back. *)
Lemma dangling_record_self_heals_witness :
  isCacheable url0 = true
  /\ store world4 !! keyOf manager0 url0 1 world4 = Some (rel0, Some 5%Z)
  /\ disk world4 !! (locationOf manager0 1 world4 +:+ "/" +:+ rel0) = None
  /\ exists w', run (isCachedURL manager0 url0 (Some 1%nat)) world4
                = (Resolved false, w').
Proof.
  assert (H1 : isCacheable url0 = true) by reflexivity.
  assert (H2 : store world4 !! keyOf manager0 url0 1 world4
               = Some (rel0, Some 5%Z)) by (vm_compute; reflexivity).
  assert (H3 : disk world4 !! (locationOf manager0 1 world4 +:+ "/" +:+ rel0)
               = None) by (vm_compute; reflexivity).
  repeat split; try assumption.
  exact (proj1 (dangling_record_self_heals manager0 url0 1 world4 rel0
                  (Some 5%Z) H1 H2 H3)).
Defined.

(** The hypotheses of C4 hold of a URL the network does not serve. *)
Lemma materialize_failure_writes_no_record_witness :
  isCacheable url1 = true
  /\ hitPath manager0 url1 1 world2 = None
  /\ remote world2 !! asString url1 = None
  /\ exists w',
       run (downloadAndCacheUrl manager0 url1 (Some 1%nat)) world2
       = (Rejected (DownloadFailed (asString url1)), w')
       /\ store w' = store world2
       /\ log w' = log world2 ++ lookupEvents manager0 url1 1 world2 ++
                   [FsDeleteFile (fileOf manager0 url1 1 world2);
                    FsDownloadFile (asString url1) (fileOf manager0 url1 1 world2)
                      (headers (merged manager0 1 world2))].
Proof.
  assert (H1 : isCacheable url1 = true) by reflexivity.
  assert (H2 : hitPath manager0 url1 1 world2 = None) by (vm_compute; reflexivity).
  assert (H3 : remote world2 !! asString url1 = None) by (vm_compute; reflexivity).
  repeat split; try assumption.
  exact (proj1 (proj2 (materialize_failure_writes_no_record manager0 url1 1
                         world2 H1 H2)) H3).
Defined.

(** The hypotheses of C5 hold of a probe before any download. *)
Lemma probe_miss_writes_record_witness :
  isCacheable url0 = true
  /\ hitPath manager0 url0 1 world2 = None
  /\ exists w',
       run (isCachedURL manager0 url0 (Some 1%nat)) world2 = (Resolved false, w')
       /\ store w' !! keyOf manager0 url0 1 world2
          = Some (relOf manager0 url0 1 world2, ttl (merged manager0 1 world2))
       /\ disk w' !! (locationOf manager0 1 world2 +:+ "/"
                       +:+ relOf manager0 url0 1 world2) = None.
Proof.
  assert (H1 : isCacheable url0 = true) by reflexivity.
  assert (H2 : hitPath manager0 url0 1 world2 = None) by (vm_compute; reflexivity).
  repeat split; try assumption.
  destruct (probe_miss_writes_record manager0 url0 1 world2 H1 H2)
    as (w' & Hrun & _ & _ & _ & Hs & Hd).
  by exists w'.
Defined.

Lemma number_is_not_HttpUrl : ~ HttpUrl (JsNumber 42).
Proof. by intros (s & [=] & _). Qed.

Lemma null_is_not_HttpUrl : ~ HttpUrl JsNull.
Proof. by intros (s & [=] & _). Qed.

Lemma ftp_is_not_HttpUrl : ~ HttpUrl (JsString "ftp://x").
Proof. by intros H%isCacheable_spec. Qed.

(** The hypothesis of C8 holds of the number 42. *)
Lemma not_cacheable_rejects_without_io_witness :
  ~ HttpUrl (JsNumber 42)
  /\ isURLCacheable (JsNumber 42) = false
  /\ exists w',
       run (perform manager0 (CallDeleteUrl (JsNumber 42) (Some 1%nat))) world2
       = (Rejected NotCacheable, w')
       /\ w' = world2.
Proof.
  split; [exact number_is_not_HttpUrl|].
  destruct (not_cacheable_rejects_without_io manager0 (JsNumber 42)
              number_is_not_HttpUrl) as [H1 H2].
  split; [exact H1|].
  destruct (H2 (CallDeleteUrl (JsNumber 42) (Some 1%nat)) world2 eq_refl)
    as (w' & Hrun & _ & _ & _ & _ & Hw).
  exists w'. split; [exact Hrun|]. apply Hw. by eexists.
Defined.

(** C9 (as stated, refuted). A call writes to the options object of its
    caller: in the scenario the caller's object sets only the
    time-to-live, and after [downloadAndCacheUrl] the same object holds
    the default headers, query policy, cache location and SSL flag as
    well. *)
Lemma caller_options_are_written :
  let w' := (run (downloadAndCacheUrl manager0 url0 (Some 1%nat)) world2).2 in
  heap world2 !! 1%nat = Some (MkOptions None (Some 5%Z) None None None)
  /\ heap w' !! 1%nat
     = Some (MkOptions (Some []) (Some 5%Z) (Some (UseBool false))
                       (Some "/cache") (Some false))
  /\ heap w' !! 1%nat <> heap world2 !! 1%nat.
Proof. vm_compute. repeat split; discriminate. Qed.

(* ===================================================================== *)
(** ** Further properties of the cache manager *)
(* ===================================================================== *)

Lemma hitPath_Some_cases m url l w p :
  hitPath m url l w = Some p
  <-> exists rel t, store w !! keyOf m url l w = Some (rel, t)
                    /\ rel <> ""
                    /\ p = locationOf m l w +:+ "/" +:+ rel
                    /\ is_Some (disk w !! p).
Proof.
  unfold hitPath. split.
  - destruct (store w !! keyOf m url l w) as [[[|c r] t]|] eqn:Hs; try done.
    destruct (disk w !! _) as [b|] eqn:Hd.
    + rewrite bool_decide_eq_true_2 by done. intros [= <-].
      exists (String c r), t. by rewrite Hd.
    + by rewrite bool_decide_eq_false_2 by (by intros [? ?]).
  - intros (rel & t & -> & Hne & -> & Hd).
    destruct rel as [|c r]; [done|]. by rewrite bool_decide_eq_true_2.
Qed.

(** X1. [isCachedURL] on a cacheable URL never rejects: it resolves with
    true exactly when the record store holds a non-empty relative path for
    the canonical URL and the file at that path under the cache location
    exists, and then neither the record store nor the disk changes. *)
Theorem probe_reports_the_lookup m url l w :
  isCacheable url = true ->
  exists b w',
    run (isCachedURL m url (Some l)) w = (Resolved b, w')
    /\ (b = true
        <-> exists rel t,
              store w !! keyOf m url l w = Some (rel, t) /\ rel <> ""
              /\ is_Some (disk w !! (locationOf m l w +:+ "/" +:+ rel)))
    /\ (b = true -> store w' = store w /\ disk w' = disk w).
Proof.
  intros Hc. unfold run.
  destruct (hitPath m url l w) as [p|] eqn:Hh.
  - rewrite (isCachedURL_hit m url l Hc tt w p Hh).
    exists true. eexists. split; [reflexivity|]. split; [|done].
    split; [intros _|done].
    apply hitPath_Some_cases in Hh as (rel & t & Hs & Hne & -> & Hd). eauto.
  - rewrite (isCachedURL_miss m url l Hc tt w Hh).
    exists false. eexists. split; [reflexivity|]. split; [|done].
    split; [done|]. intros (rel & t & Hs & Hne & Hd).
    assert (hitPath m url l w = Some (locationOf m l w +:+ "/" +:+ rel)) as Hh'.
    { apply hitPath_Some_cases. eauto 6. }
    congruence.
Qed.

(** The hypothesis of X1 holds of the scenario URL in the world after its
    first download. *)
Lemma probe_reports_the_lookup_witness :
  isCacheable url0 = true
  /\ exists b w',
       run (isCachedURL manager0 url0 (Some 1%nat)) world3 = (Resolved b, w')
       /\ (b = true -> store w' = store world3 /\ disk w' = disk world3).
Proof.
  split; [reflexivity|].
  destruct (probe_reports_the_lookup manager0 url0 1 world3 eq_refl)
    as (b & w' & Hrun & _ & Hro).
  exists b, w'. split; [exact Hrun|exact Hro].
Defined.

Lemma deleteUrl_run {L} m url l (ls : L) w :
  isCacheable url = true ->
  deleteUrl m url (Some l) ls w
  = (Resolved tt, ls,
     setDisk (delete (fileOf m url l w) (disk w))
       (setStore (delete (keyOf m url l w) (store w))
          (emitAll [StoreRemove (keyOf m url l w); FsDeleteFile (fileOf m url l w)]
             (prepared m l w)))).
Proof.
  intros Hc. unfold deleteUrl, optionsArg. rewrite Hc. run_promise.
  fold (merged m l w). fold (prepared m l w).
  rewrite !getObj_prepared. by world_eq.
Qed.

(** X2. [deleteUrl] on a cacheable URL resolves after removing the record
    of the canonical URL and deleting the file at the path derived from
    the URL, the very path [cacheUrl] materializes to; other records and
    files stay.  Afterwards the lookup misses and [isCachedURL] resolves
    with false. *)
Theorem evict_then_miss m url l w :
  isCacheable url = true ->
  let key := keyOf m url l w in
  let file := fileOf m url l w in
  exists w',
    run (deleteUrl m url (Some l)) w = (Resolved tt, w')
    /\ log w' = log w ++ [StoreRemove key; FsDeleteFile file]
    /\ store w' = delete key (store w)
    /\ disk w' = delete file (disk w)
    /\ hitPath m url l w' = None
    /\ exists w'', run (isCachedURL m url (Some l)) w' = (Resolved false, w'').
Proof.
  intros Hc key file. subst key file.
  pose (w' := setDisk (delete (fileOf m url l w) (disk w))
       (setStore (delete (keyOf m url l w) (store w))
          (emitAll [StoreRemove (keyOf m url l w); FsDeleteFile (fileOf m url l w)]
             (prepared m l w)))).
  assert (Hh : hitPath m url l w' = None).
  { unfold hitPath.
    rewrite (keyOf_heap m url l (prepared m l w) w') by done.
    unfold keyOf at 1. rewrite (merged_idem m l w (prepared m l w)) by done.
    fold (keyOf m url l w).
    change (store w') with (delete (keyOf m url l w) (store w)).
    by rewrite lookup_delete_eq. }
  exists w'. unfold run at 1.
  rewrite (deleteUrl_run m url l tt w Hc). fold w'.
  split; [reflexivity|]. split; [|split; [done|split; [done|split; [done|]]]].
  - done.
  - eexists. unfold run. by rewrite (isCachedURL_miss m url l Hc tt w' Hh).
Qed.

(** The hypothesis of X2 holds of the scenario URL in the world after its
    first download. *)
Lemma evict_then_miss_witness :
  isCacheable url0 = true
  /\ exists w',
       run (deleteUrl manager0 url0 (Some 1%nat)) world3 = (Resolved tt, w')
       /\ store w' = delete (keyOf manager0 url0 1 world3) (store world3)
       /\ disk w' = delete (fileOf manager0 url0 1 world3) (disk world3).
Proof.
  split; [reflexivity|].
  destruct (evict_then_miss manager0 url0 1 world3 eq_refl)
    as (w' & Hrun & _ & Hs & Hd & _).
  exists w'. split; [exact Hrun|]. split; [exact Hs|exact Hd].
Defined.

Lemma inDir_under dir rel : inDir dir (dir +:+ "/" +:+ rel) = true.
Proof.
  unfold inDir. induction dir as [|c dir IH].
  - change ("" +:+ "/" +:+ rel) with (String "/" rel).
    change ("" +:+ "/") with "/". simpl. by destruct rel.
  - change (String c dir +:+ "/" +:+ rel) with (String c (dir +:+ "/" +:+ rel)).
    change (String c dir +:+ "/") with (String c (dir +:+ "/")). simpl.
    by destruct (ascii_dec c c).
Qed.

(** X3. [clearCache] resolves after flushing the record store and
    emptying the cache location of the completed options: afterwards the
    record store is empty, no file under the cache location is left,
    files elsewhere are as before, and every lookup misses. *)
Theorem clear_cache_empties m l w :
  let dir := locationOf m l w in
  exists w',
    run (clearCache m (Some l)) w = (Resolved tt, w')
    /\ log w' = log w ++ [StoreFlush; FsCleanDir dir]
    /\ store w' = ∅
    /\ (forall p, inDir dir p = true -> disk w' !! p = None)
    /\ (forall p, inDir dir p = false -> disk w' !! p = disk w !! p)
    /\ (forall url, hitPath m url l w' = None).
Proof.
  intros dir. subst dir. eexists. unfold run, clearCache, optionsArg.
  run_promise. fold (merged m l w). fold (prepared m l w).
  rewrite (getObj_heap l (prepared m l w)) by done.
  rewrite getObj_prepared. fold (locationOf m l w).
  split; [reflexivity|]. cbn.
  split; [by rewrite <- app_assoc|]. split; [done|].
  split; [|split].
  - intros p Hp. apply map_lookup_filter_None. right. intros x _. cbn.
    fold (inDir (locationOf m l w) p). congruence.
  - intros p Hp. destruct (disk w !! p) as [x|] eqn:Hd.
    + by apply map_lookup_filter_Some.
    + apply map_lookup_filter_None. by left.
  - intros url. unfold hitPath. cbn. by rewrite lookup_empty.
Qed.

Lemma getCacheInfo_run {L} m l (ls : L) w :
  getCacheInfo m (Some l) ls w
  = let inside := filter (fun kv => inDir (locationOf m l w) kv.1 = true) (disk w) in
    (Resolved (MkDirInfo (map_to_list inside).*1
                 (foldr (fun kv n => (String.length kv.2 + n)%nat) 0%nat
                        (map_to_list inside))), ls,
     emitAll [FsGetDirInfo (locationOf m l w)] (prepared m l w)).
Proof.
  unfold getCacheInfo, optionsArg. run_promise.
  fold (merged m l w). fold (prepared m l w).
  by rewrite getObj_prepared.
Qed.

(** X4. [getCacheInfo] resolves with the files under the cache location,
    each listed once, after one call to the filesystem; it leaves the
    record store and the disk as they are, and a file that a lookup
    answers with is among the files listed. *)
Theorem cache_info_lists_cached_files m l w :
  exists info w',
    run (getCacheInfo m (Some l)) w = (Resolved info, w')
    /\ log w' = log w ++ [FsGetDirInfo (locationOf m l w)]
    /\ store w' = store w /\ disk w' = disk w
    /\ NoDup (files info)
    /\ (forall p, p ∈ files info
                  <-> inDir (locationOf m l w) p = true /\ is_Some (disk w !! p))
    /\ (forall url p, hitPath m url l w = Some p -> p ∈ files info).
Proof.
  eexists. eexists. unfold run. rewrite getCacheInfo_run. cbn.
  split; [reflexivity|]. cbn.
  assert (Hiff : forall p,
    p ∈ (map_to_list (filter (fun kv : string * string =>
                                inDir (locationOf m l w) kv.1 = true) (disk w))).*1
    <-> inDir (locationOf m l w) p = true /\ is_Some (disk w !! p)).
  { intros p. rewrite list_elem_of_fmap. split.
    - intros ([p' x] & -> & Hin). apply elem_of_map_to_list in Hin.
      apply map_lookup_filter_Some in Hin as [Hd Hp]. eauto.
    - intros [Hp [x Hd]]. exists (p, x). split; [done|].
      apply elem_of_map_to_list. by apply map_lookup_filter_Some. }
  split; [by rewrite <- ?app_assoc|]. split; [done|]. split; [done|].
  split; [apply NoDup_fst_map_to_list|]. split; [exact Hiff|].
  - intros url p (rel & t & _ & _ & -> & Hd)%hitPath_Some_cases.
    apply Hiff. split; [apply inDir_under|done].
Qed.

Lemma hitPath_after_record m url l w w' t content :
  heap w' = heap (prepared m l w) ->
  store w' = <[keyOf m url l w := (relOf m url l w, t)]> (store w) ->
  disk w' !! fileOf m url l w = Some content ->
  hitPath m url l w' = Some (fileOf m url l w).
Proof.
  intros Hh Hs Hd.
  assert (Hm : merged m l w' = merged m l w) by by apply merged_idem.
  unfold hitPath, keyOf, locationOf. rewrite Hm.
  fold (keyOf m url l w). fold (locationOf m l w).
  rewrite Hs, lookup_insert_eq.
  pose proof (relative_path_nonempty (keyOf m url l w)) as Hne.
  fold (relOf m url l w) in *.
  destruct (relOf m url l w) as [|c r] eqn:Hrel; [done|].
  unfold fileOf in Hd. rewrite Hrel in Hd. cbn.
  rewrite Hd. rewrite bool_decide_eq_true_2 by done.
  unfold fileOf. by rewrite Hrel.
Qed.

(** X5. Seeding: when the lookup misses and the seed file exists at
    another path than the derived one, [seedAndCacheUrl] resolves with the
    derived file path after deleting it, copying the seed there and
    writing the record, without any download; the seed file stays, the
    cached file has its content, and [isCachedURL] then resolves with
    true. *)
Theorem seed_then_hit m url l w seedPath content :
  isCacheable url = true ->
  hitPath m url l w = None ->
  disk w !! seedPath = Some content ->
  seedPath <> fileOf m url l w ->
  let key := keyOf m url l w in
  let file := fileOf m url l w in
  exists w',
    run (seedAndCacheUrl m url seedPath (Some l)) w = (Resolved file, w')
    /\ log w' = log w ++ lookupEvents m url l w ++
                [FsDeleteFile file; FsCopyFile seedPath file;
                 StoreSet key (relOf m url l w) (ttl (merged m l w))]
    /\ disk w' !! file = Some content
    /\ disk w' !! seedPath = Some content
    /\ store w' !! key = Some (relOf m url l w, ttl (merged m l w))
    /\ exists w'', run (isCachedURL m url (Some l)) w' = (Resolved true, w'').
Proof.
  intros Hc Hmiss Hseed Hne key file. subst key file.
  pose (w0 := emit (FsCopyFile seedPath (fileOf m url l w))
                   (beforeMaterialize m url l w)).
  pose (w' := recorded m url l w
                (setDisk (<[fileOf m url l w := content]> (disk w0)) w0)).
  assert (Hrun : seedAndCacheUrl m url seedPath (Some l) tt w
                 = (Resolved (fileOf m url l w), tt, w')).
  { rewrite (seedAndCacheUrl_miss m url l Hc tt w seedPath Hmiss). cbv zeta.
    change (disk (emit (FsCopyFile seedPath (fileOf m url l w))
                       (beforeMaterialize m url l w)))
      with (delete (fileOf m url l w) (disk w)).
    by rewrite lookup_delete_ne, Hseed. }
  assert (Hobj : getObj l (setDisk (<[fileOf m url l w := content]> (disk w0)) w0)
                 = merged m l w).
  { rewrite (getObj_heap l (prepared m l w)) by done. apply getObj_prepared. }
  assert (Hdisk : disk w' = <[fileOf m url l w := content]>
                              (delete (fileOf m url l w) (disk w))) by done.
  assert (Hstore : store w'
                   = <[keyOf m url l w := (relOf m url l w, ttl (merged m l w))]>
                       (store w)).
  { unfold w', recorded. rewrite Hobj. done. }
  assert (Hhit : hitPath m url l w' = Some (fileOf m url l w)).
  { apply (hitPath_after_record m url l w w' (ttl (merged m l w)) content);
      [done|done|]. by rewrite Hdisk, lookup_insert_eq. }
  exists w'. unfold run at 1. rewrite Hrun.
  split; [reflexivity|]. split; [|split; [|split; [|split]]].
  - unfold w', recorded. rewrite Hobj. cbn. by rewrite <- !app_assoc.
  - by rewrite Hdisk, lookup_insert_eq.
  - by rewrite Hdisk, lookup_insert_ne, lookup_delete_ne.
  - by rewrite Hstore, lookup_insert_eq.
  - eexists. unfold run.
    by rewrite (isCachedURL_hit m url l Hc tt w' (fileOf m url l w) Hhit).
Qed.

(** X6. Seeding a URL with the file at its own derived path destroys that
    file: on a miss [seedAndCacheUrl] deletes the path before it copies,
    so the copy fails, the call rejects, the file is gone and no record is
    written. *)
Theorem seeding_from_the_cache_path_fails m url l w :
  isCacheable url = true ->
  hitPath m url l w = None ->
  let file := fileOf m url l w in
  exists w',
    run (seedAndCacheUrl m url file (Some l)) w = (Rejected (CopyFailed file), w')
    /\ disk w' !! file = None
    /\ disk w' = delete file (disk w)
    /\ store w' = store w.
Proof.
  intros Hc Hmiss file. subst file. unfold run.
  rewrite (seedAndCacheUrl_miss m url l Hc tt w _ Hmiss). cbn.
  rewrite lookup_delete_eq. eexists. split; [reflexivity|]. cbn.
  by rewrite lookup_delete_eq.
Qed.

(** X7. A stale file does not survive a failed refill: when the lookup
    misses, the materialize step, whatever it is, starts in a world in
    which the file at the derived path has been deleted, the rest of the
    disk and the record store being as before, and when the step rejects
    [cacheUrl] rejects in the very world the step left.  So a seed from a
    missing file, which writes nothing, leaves the derived path empty and
    every other file as it was. *)
Theorem failed_refill_deletes_stale_file m url l w :
  isCacheable url = true ->
  hitPath m url l w = None ->
  let file := fileOf m url l w in
  let w0 := beforeMaterialize m url l w in
  disk w0 = delete file (disk w)
  /\ disk w0 !! file = None
  /\ store w0 = store w
  /\ log w0 = log w ++ lookupEvents m url l w ++ [FsDeleteFile file]
  /\ (forall L (getCachedFile : string -> Promise L unit) ls e ls' w',
        getCachedFile file ls w0 = (Rejected e, ls', w') ->
        cacheUrl m url l getCachedFile ls w = (Rejected e, ls', w'))
  /\ (forall seedPath, disk w !! seedPath = None ->
      exists w',
        run (seedAndCacheUrl m url seedPath (Some l)) w
        = (Rejected (CopyFailed seedPath), w')
        /\ disk w' = delete file (disk w) /\ disk w' !! file = None).
Proof.
  intros Hc Hmiss file w0. subst file w0.
  split; [reflexivity|]. split; [cbn; by rewrite lookup_delete_eq|].
  split; [reflexivity|]. split; [reflexivity|]. split.
  - intros L cb ls e ls' w' Hcb.
    by rewrite (cacheUrl_miss m url l cb Hc ls w Hmiss), Hcb.
  - intros seedPath Hseed. eexists. unfold run.
    rewrite (seedAndCacheUrl_miss m url l Hc tt w seedPath Hmiss). cbn.
    assert (delete (fileOf m url l w) (disk w) !! seedPath = None) as ->.
    { rewrite lookup_delete. by case_decide. }
    split; [reflexivity|]. cbn. by rewrite lookup_delete_eq.
Qed.

(** The hypotheses of X5 hold of the scenario URL and the seed file of
    [worldSeed]. *)
Lemma seed_then_hit_witness :
  isCacheable url0 = true
  /\ hitPath manager0 url0 1 worldSeed = None
  /\ disk worldSeed !! "/tmp/seed.png" = Some "SEED"
  /\ "/tmp/seed.png" <> fileOf manager0 url0 1 worldSeed
  /\ exists w',
       run (seedAndCacheUrl manager0 url0 "/tmp/seed.png" (Some 1%nat)) worldSeed
       = (Resolved (fileOf manager0 url0 1 worldSeed), w')
       /\ disk w' !! fileOf manager0 url0 1 worldSeed = Some "SEED".
Proof.
  assert (H1 : isCacheable url0 = true) by reflexivity.
  assert (H2 : hitPath manager0 url0 1 worldSeed = None) by (vm_compute; reflexivity).
  assert (H3 : disk worldSeed !! "/tmp/seed.png" = Some "SEED")
    by (vm_compute; reflexivity).
  assert (H4 : "/tmp/seed.png" <> fileOf manager0 url0 1 worldSeed)
    by (vm_compute; discriminate).
  split; [exact H1|]. split; [exact H2|]. split; [exact H3|]. split; [exact H4|].
  destruct (seed_then_hit manager0 url0 1 worldSeed "/tmp/seed.png" "SEED"
              H1 H2 H3 H4) as (w' & Hrun & _ & Hd & _).
  exists w'. split; [exact Hrun|exact Hd].
Defined.

(** The hypotheses of X6 hold of the scenario URL in [worldStale], seeded
    with the stale file at its own derived path. *)
Lemma seeding_from_the_cache_path_fails_witness :
  isCacheable url0 = true
  /\ hitPath manager0 url0 1 worldStale = None
  /\ disk worldStale !! fileOf manager0 url0 1 worldStale = Some "OLD"
  /\ exists w',
       run (seedAndCacheUrl manager0 url0 (fileOf manager0 url0 1 worldStale)
              (Some 1%nat)) worldStale
       = (Rejected (CopyFailed (fileOf manager0 url0 1 worldStale)), w')
       /\ disk w' !! fileOf manager0 url0 1 worldStale = None.
Proof.
  assert (H1 : isCacheable url0 = true) by reflexivity.
  assert (H2 : hitPath manager0 url0 1 worldStale = None) by (vm_compute; reflexivity).
  split; [exact H1|]. split; [exact H2|].
  split; [vm_compute; reflexivity|].
  destruct (seeding_from_the_cache_path_fails manager0 url0 1 worldStale H1 H2)
    as (w' & Hrun & Hd & _).
  exists w'. split; [exact Hrun|exact Hd].
Defined.

(** The hypotheses of X7 hold of the scenario URL in [worldStale], where a
    stale file lies at its derived path; the seed file is missing. *)
Lemma failed_refill_deletes_stale_file_witness :
  isCacheable url0 = true
  /\ hitPath manager0 url0 1 worldStale = None
  /\ disk worldStale !! fileOf manager0 url0 1 worldStale = Some "OLD"
  /\ disk worldStale !! "/tmp/none.png" = None
  /\ exists w',
       run (seedAndCacheUrl manager0 url0 "/tmp/none.png" (Some 1%nat)) worldStale
       = (Rejected (CopyFailed "/tmp/none.png"), w')
       /\ disk w' !! fileOf manager0 url0 1 worldStale = None.
Proof.
  assert (H1 : isCacheable url0 = true) by reflexivity.
  assert (H2 : hitPath manager0 url0 1 worldStale = None) by (vm_compute; reflexivity).
  assert (H3 : disk worldStale !! "/tmp/none.png" = None) by (vm_compute; reflexivity).
  split; [exact H1|]. split; [exact H2|].
  split; [vm_compute; reflexivity|]. split; [exact H3|].
  destruct (failed_refill_deletes_stale_file manager0 url0 1 worldStale H1 H2)
    as (_ & _ & _ & _ & _ & Hseed).
  destruct (Hseed "/tmp/none.png" H3) as (w' & Hrun & _ & Hd).
  exists w'. split; [exact Hrun|exact Hd].
Defined.

Lemma seedAndCacheUrl_hit {L} m url l seedPath (ls : L) w p :
  isCacheable url = true ->
  hitPath m url l w = Some p ->
  seedAndCacheUrl m url seedPath (Some l) ls w
  = (Resolved p, ls, emitAll (lookupEvents m url l w) (prepared m l w)).
Proof.
  intros Hc Hhit. unfold seedAndCacheUrl, optionsArg.
  unfold andThen at 1. unfold resolve at 1.
  by rewrite (cacheUrl_hit m url l _ Hc ls w p Hhit).
Qed.

(** X8. Caching, probing or evicting one URL leaves every other entry
    alone: a call of [isCachedURL], [downloadAndCacheUrl],
    [seedAndCacheUrl] or [deleteUrl] on a cacheable URL changes no record
    other than that of the canonical URL, no file other than the one at
    the derived path, and nothing of the network, however it settles. *)
Theorem other_entries_are_untouched m c url l w :
  urlOf c = Some url ->
  optionsOf c = Some l ->
  isCacheable url = true ->
  let w' := (run (perform m c) w).2 in
  (forall k, k <> keyOf m url l w -> store w' !! k = store w !! k)
  /\ (forall p, p <> fileOf m url l w -> disk w' !! p = disk w !! p)
  /\ remote w' = remote w.
Proof.
  intros Hu Ho Hc w'. subst w'.
  assert (Hgoal : forall w1 : World,
    (store w1 = store w \/ store w1 = delete (keyOf m url l w) (store w)
     \/ exists e, store w1 = <[keyOf m url l w := e]> (store w)) ->
    (disk w1 = disk w \/ disk w1 = delete (fileOf m url l w) (disk w)
     \/ exists b, disk w1 = <[fileOf m url l w := b]>
                              (delete (fileOf m url l w) (disk w))) ->
    remote w1 = remote w ->
    (forall k, k <> keyOf m url l w -> store w1 !! k = store w !! k)
    /\ (forall p, p <> fileOf m url l w -> disk w1 !! p = disk w !! p)
    /\ remote w1 = remote w).
  { intros w1 Hs Hd Hr. repeat split; [| |done].
    - intros k Hk. destruct Hs as [->|[->|[e ->]]]; [done| |].
      + by rewrite lookup_delete_ne.
      + by rewrite lookup_insert_ne.
    - intros p Hp. destruct Hd as [->|[->|[b ->]]]; [done| |].
      + by rewrite lookup_delete_ne.
      + by rewrite lookup_insert_ne, lookup_delete_ne. }
  destruct c as [u o|u o|u s o|u o|o|o]; simplify_eq/=;
    rewrite ?run_world_then, ?run_world_seq.
  - destruct (hitPath m url l w) as [p|] eqn:Hh.
    + rewrite (isCachedURL_hit m url l Hc tt w p Hh). apply Hgoal; auto.
    + rewrite (isCachedURL_miss m url l Hc tt w Hh). apply Hgoal; cbn; eauto.
  - destruct (hitPath m url l w) as [p|] eqn:Hh.
    + rewrite (downloadAndCacheUrl_hit m url l Hc tt w p Hh). apply Hgoal; auto.
    + rewrite (downloadAndCacheUrl_miss m url l Hc tt w Hh).
      destruct (remote w !! asString url); apply Hgoal; cbn; eauto.
  - destruct (hitPath m url l w) as [p|] eqn:Hh.
    + rewrite (seedAndCacheUrl_hit m url l s tt w p Hc Hh). apply Hgoal; auto.
    + rewrite (seedAndCacheUrl_miss m url l Hc tt w s Hh). cbv zeta.
      destruct (disk _ !! s); apply Hgoal; cbn; eauto.
  - rewrite (deleteUrl_run m url l tt w Hc). apply Hgoal; cbn; auto.
Qed.

(** The hypotheses of X8 hold of a download of the scenario URL. *)
Lemma other_entries_are_untouched_witness :
  urlOf (CallDownloadAndCacheUrl url0 (Some 1%nat)) = Some url0
  /\ optionsOf (CallDownloadAndCacheUrl url0 (Some 1%nat)) = Some 1%nat
  /\ isCacheable url0 = true
  /\ remote (run (perform manager0 (CallDownloadAndCacheUrl url0 (Some 1%nat)))
               worldSeed).2 = remote worldSeed.
Proof.
  split; [reflexivity|]. split; [reflexivity|]. split; [reflexivity|].
  exact (proj2 (proj2 (other_entries_are_untouched manager0
    (CallDownloadAndCacheUrl url0 (Some 1%nat)) url0 1 worldSeed
    eq_refl eq_refl eq_refl))).
Defined.

Lemma orElse_nested {A} (x y : option A) : orElse x (orElse x y) = orElse x y.
Proof. by destruct x. Qed.

Lemma defaults_nested o d : defaults o (defaults o d) = defaults o d.
Proof. unfold defaults. cbn. by rewrite !orElse_nested. Qed.

(** X9. The factory completes the defaults object it is handed, in place
    and touching nothing else, from the built-in defaults (no headers, two
    weeks, no query parameters, the cache directory of the filesystem, no
    self-signed SSL).  From then on a call works with its own options
    first, the factory defaults second and the built-in defaults last, so
    every option is defined. *)
Theorem factory_defaults_chain d w :
  let builtin :=
    MkOptions (Some []) (Some 1209600%Z) (Some (UseBool false))
              (Some (cacheDir w)) (Some false) in
  exists w',
    run (create (Some d)) w = (Resolved (MkManager d), w')
    /\ getObj d w' = defaults (getObj d w) builtin
    /\ (forall l, l <> d -> heap w' !! l = heap w !! l)
    /\ store w' = store w /\ disk w' = disk w /\ log w' = log w
    /\ (forall l,
          merged (MkManager d) l w'
          = defaults (getObj l w) (defaults (getObj d w) builtin))
    /\ (forall l,
          is_Some (cacheLocation (merged (MkManager d) l w'))
          /\ is_Some (ttl (merged (MkManager d) l w'))
          /\ is_Some (useQueryParamsInCacheKey (merged (MkManager d) l w'))).
Proof.
  intros builtin. eexists. split; [reflexivity|]. cbn.
  change (MkOptions (Some []) (Some 1209600%Z) (Some (UseBool false))
            (Some (cacheDir w)) (Some false)) with (defaultDefaultOptions w) in *.
  assert (Hd : getObj d (setHeap (<[d:=defaults (getObj d w) (defaultDefaultOptions w)]>
                                    (heap w)) w)
               = defaults (getObj d w) (defaultDefaultOptions w)).
  { unfold getObj. cbn. by rewrite lookup_insert_eq. }
  assert (Hm : forall l,
    merged (MkManager d) l
      (setHeap (<[d:=defaults (getObj d w) (defaultDefaultOptions w)]> (heap w)) w)
    = defaults (getObj l w) (defaults (getObj d w) (defaultDefaultOptions w))).
  { intros l. unfold merged. cbn [defaultOptions]. rewrite Hd.
    destruct (decide (l = d)) as [->|Hne].
    - rewrite Hd. by rewrite defaults_idem, defaults_nested.
    - f_equal. unfold getObj. cbn. by rewrite lookup_insert_ne. }
  repeat split; try done.
  - intros l Hl. by rewrite lookup_insert_ne.
  - rewrite Hm.
    destruct (getObj l w) as [? ? ? [?|] ?], (getObj d w) as [? ? ? [?|] ?];
      cbn; by eexists.
  - rewrite Hm.
    destruct (getObj l w) as [? [?|] ? ? ?], (getObj d w) as [? [?|] ? ? ?];
      cbn; by eexists.
  - rewrite Hm.
    destruct (getObj l w) as [? ? [?|] ? ?], (getObj d w) as [? ? [?|] ? ?];
      cbn; by eexists.
Qed.

(** What a resolved [cacheUrl] leaves, whatever the materialize step: the
    options object completed, and a record and a file that answer the next
    lookup. *)
Lemma resolved_cacheUrl_state {L} m url l (cb : string -> Promise L unit) ls w p ls' w1 :
  (forall path ls0 w0 ls1 w1,
      cb path ls0 w0 = (Resolved tt, ls1, w1) ->
      heap w1 = heap w0 /\ store w1 = store w0 /\ is_Some (disk w1 !! path)) ->
  cacheUrl m url l cb ls w = (Resolved p, ls', w1) ->
  isCacheable url = true
  /\ heap w1 = heap (prepared m l w)
  /\ hitPath m url l w1 = Some p.
Proof.
  intros Hcb Hrun.
  assert (Hc : isCacheable url = true).
  { destruct (isCacheable url) eqn:Hc; [done|].
    by rewrite cacheUrl_not_cacheable in Hrun. }
  split; [done|].
  destruct (hitPath m url l w) as [p0|] eqn:Hh.
  - rewrite (cacheUrl_hit m url l cb Hc ls w p0 Hh) in Hrun.
    injection Hrun as <- <- <-. split; [done|].
    rewrite <- Hh. apply hitPath_same; [|done..]. by apply merged_idem.
  - rewrite (cacheUrl_miss m url l cb Hc ls w Hh) in Hrun.
    destruct (cb _ _ _) as [[[[]|e] ls1] w0] eqn:Hcbrun; [|done].
    injection Hrun as <- <- <-.
    destruct (Hcb _ _ _ _ _ Hcbrun) as (Hheap & Hstore & [content Hdisk]).
    assert (Hh0 : heap (recorded m url l w w0) = heap (prepared m l w)).
    { change (heap w0 = heap (prepared m l w)). by rewrite Hheap. }
    split; [done|].
    apply (hitPath_after_record m url l w _
             (ttl (getObj l w0)) content); [done| |done].
    change (store (recorded m url l w w0))
      with (<[keyOf m url l w := (relOf m url l w, ttl (getObj l w0))]> (store w0)).
    by rewrite Hstore.
Qed.

Lemma download_step_ok {L} url l path (ls0 : L) w0 ls1 w1 :
  (hdrs <- readWorld (fun w => headers (getObj l w)) ;;
   fs_downloadFile url path hdrs) ls0 w0 = (Resolved tt, ls1, w1) ->
  heap w1 = heap w0 /\ store w1 = store w0 /\ is_Some (disk w1 !! path).
Proof.
  run_promise. destruct (remote w0 !! url) as [b|]; [|done].
  intros [= <- <-]. cbn. by rewrite lookup_insert_eq.
Qed.

Lemma keyOf_without_query m u1 u2 l w :
  protocol (parse u1) = protocol (parse u2) ->
  slashes (parse u1) = slashes (parse u2) ->
  host (parse u1) = host (parse u2) ->
  pathname (parse u1) = pathname (parse u2) ->
  hash (parse u1) = hash (parse u2) ->
  useQueryParamsInCacheKey (merged m l w) = None
  \/ useQueryParamsInCacheKey (merged m l w) = Some (UseBool false) ->
  keyOf m (JsString u1) l w = keyOf m (JsString u2) l w.
Proof.
  intros Hp Hs Hh Hpn Hf Hpol. unfold keyOf, getCacheableUrl. cbn.
  destruct Hpol as [-> | ->]; unfold toString, setQuery; cbn;
    by rewrite Hp, Hs, Hh, Hpn, Hf.
Qed.

(** X10. With query parameters left out of the cache key (the built-in
    default), URLs that differ in their query only share one cache entry:
    they have the same canonical URL, and once one of them has been
    downloaded, [downloadAndCacheUrl] on the other resolves with the same
    file after a lookup alone, without any download.  This holds of URLs
    of the formula family as well. *)
Theorem query_is_ignored_by_default m u1 u2 l w p w1 :
  protocol (parse u1) = protocol (parse u2) ->
  slashes (parse u1) = slashes (parse u2) ->
  host (parse u1) = host (parse u2) ->
  pathname (parse u1) = pathname (parse u2) ->
  hash (parse u1) = hash (parse u2) ->
  useQueryParamsInCacheKey (merged m l w) = None
  \/ useQueryParamsInCacheKey (merged m l w) = Some (UseBool false) ->
  isCacheable (JsString u2) = true ->
  run (downloadAndCacheUrl m (JsString u1) (Some l)) w = (Resolved p, w1) ->
  keyOf m (JsString u1) l w = keyOf m (JsString u2) l w
  /\ run (downloadAndCacheUrl m (JsString u2) (Some l)) w1
     = (Resolved p,
        emitAll [StoreGet (keyOf m (JsString u1) l w); FsExists p] w1).
Proof.
  intros Hp Hs Hh Hpn Hf Hpol Hc2 Hrun.
  pose proof (keyOf_without_query m u1 u2 l w Hp Hs Hh Hpn Hf Hpol) as Hkey.
  split; [done|].
  unfold run, downloadAndCacheUrl, optionsArg in Hrun.
  unfold andThen at 1 in Hrun. unfold resolve at 1 in Hrun.
  destruct (cacheUrl _ _ _ _ _ _) as [[r ls'] w1'] eqn:Hcu.
  injection Hrun as -> ->.
  destruct (resolved_cacheUrl_state m (JsString u1) l _ tt w p ls' w1
              (download_step_ok (asString (JsString u1)) l) Hcu)
    as (Hc1 & Hheap & Hhit).
  assert (Hm : merged m l w1 = merged m l w) by by apply merged_idem.
  assert (Hkey1 : keyOf m (JsString u2) l w1 = keyOf m (JsString u1) l w1).
  { symmetry. apply keyOf_without_query; try done. by rewrite Hm. }
  assert (Hhit2 : hitPath m (JsString u2) l w1 = Some p).
  { rewrite <- Hhit. unfold hitPath. by rewrite Hkey1. }
  unfold run. rewrite (downloadAndCacheUrl_hit m (JsString u2) l Hc2 tt w1 p Hhit2).
  rewrite (lookupEvents_hit _ _ _ _ _ Hhit2), Hkey1.
  rewrite (keyOf_heap m (JsString u1) l (prepared m l w) w1 Hheap).
  unfold keyOf at 1. rewrite (merged_idem m l w (prepared m l w)) by done.
  fold (keyOf m (JsString u1) l w).
  by rewrite (prepared_idem m l w w1 Hheap).
Qed.

(** The hypotheses of X10 hold of the two formula URLs: the second is
    answered with the file of the first. *)
Lemma query_is_ignored_by_default_witness :
  pathname (parse formula1) = pathname (parse formula2)
  /\ useQueryParamsInCacheKey (merged manager0 1 worldFormula)
     = Some (UseBool false)
  /\ isCacheable (JsString formula2) = true
  /\ run (downloadAndCacheUrl manager0 (JsString formula1) (Some 1%nat)) worldFormula
     = (Resolved pathFormula, worldFormula1)
  /\ keyOf manager0 (JsString formula1) 1 worldFormula
     = keyOf manager0 (JsString formula2) 1 worldFormula
  /\ run (downloadAndCacheUrl manager0 (JsString formula2) (Some 1%nat)) worldFormula1
     = (Resolved pathFormula,
        emitAll [StoreGet (keyOf manager0 (JsString formula1) 1 worldFormula);
                 FsExists pathFormula] worldFormula1).
Proof.
  assert (H1 : protocol (parse formula1) = protocol (parse formula2))
    by (vm_compute; reflexivity).
  assert (H2 : slashes (parse formula1) = slashes (parse formula2))
    by (vm_compute; reflexivity).
  assert (H3 : host (parse formula1) = host (parse formula2))
    by (vm_compute; reflexivity).
  assert (H4 : pathname (parse formula1) = pathname (parse formula2))
    by (vm_compute; reflexivity).
  assert (H5 : hash (parse formula1) = hash (parse formula2))
    by (vm_compute; reflexivity).
  assert (H6 : useQueryParamsInCacheKey (merged manager0 1 worldFormula)
               = Some (UseBool false)) by (vm_compute; reflexivity).
  assert (H7 : isCacheable (JsString formula2) = true) by reflexivity.
  assert (H8 : run (downloadAndCacheUrl manager0 (JsString formula1) (Some 1%nat))
                   worldFormula = (Resolved pathFormula, worldFormula1))
    by (vm_compute; reflexivity).
  split; [exact H4|]. split; [exact H6|]. split; [exact H7|]. split; [exact H8|].
  exact (query_is_ignored_by_default manager0 formula1 formula2 1 worldFormula
           pathFormula worldFormula1 H1 H2 H3 H4 H5 (or_intror H6) H7 H8).
Defined.

Lemma hitPath_other_object m url l l2 w w2 :
  merged m l2 w2 = merged m l w -> store w2 = store w -> disk w2 = disk w ->
  hitPath m url l2 w2 = hitPath m url l w.
Proof.
  intros Hm Hs Hd. unfold hitPath, keyOf, locationOf. by rewrite Hm, Hs, Hd.
Qed.

Lemma fresh_not_in_heap (w : World) l :
  is_Some (heap w !! l) -> fresh (dom (heap w)) <> l.
Proof.
  intros Hl <-. by apply (is_fresh (dom (heap w))), elem_of_dom.
Qed.

Lemma merged_fresh m w :
  is_Some (heap w !! defaultOptions m) ->
  merged m (entry None w).1 (entry None w).2
  = defaults emptyOptions (getObj (defaultOptions m) w).
Proof.
  intros Hd. unfold merged. cbn.
  pose proof (fresh_not_in_heap w _ Hd) as Hne.
  unfold getObj. cbn. by rewrite lookup_insert_eq, lookup_insert_ne.
Qed.

(** X11. Calls that leave the options argument out work on a fresh object
    each time and still agree: with the defaults object of the manager in
    the heap, once [downloadAndCacheUrl(url)] has resolved with a path,
    [isCachedURL(url)] resolves with true and a second
    [downloadAndCacheUrl(url)] resolves with the same path after a lookup
    alone, the record store and the disk staying as they are. *)
Theorem round_trip_without_options m url w p w1 :
  is_Some (heap w !! defaultOptions m) ->
  run (downloadAndCacheUrl m url None) w = (Resolved p, w1) ->
  (exists w2, run (isCachedURL m url None) w1 = (Resolved true, w2))
  /\ exists w3,
       run (downloadAndCacheUrl m url None) w1 = (Resolved p, w3)
       /\ store w3 = store w1 /\ disk w3 = disk w1
       /\ exists key, log w3 = log w1 ++ [StoreGet key; FsExists p].
Proof.
  intros Hd Hrun.
  set (l1 := (entry None w).1). set (wa := (entry None w).2).
  unfold run, downloadAndCacheUrl in Hrun.
  unfold andThen at 1 in Hrun. rewrite optionsArg_run in Hrun.
  fold l1 wa in Hrun.
  destruct (cacheUrl _ _ _ _ _ _) as [[r ls'] w1'] eqn:Hcu.
  injection Hrun as -> ->.
  destruct (resolved_cacheUrl_state m url l1 _ tt wa p ls' w1
              (download_step_ok (asString url) l1) Hcu) as (Hc & Hheap & Hhit).
  assert (Hm1 : merged m l1 w1 = defaults emptyOptions (getObj (defaultOptions m) w)).
  { rewrite (merged_idem m l1 wa w1 Hheap). by apply merged_fresh. }
  assert (Hd1 : is_Some (heap w1 !! defaultOptions m)).
  { rewrite Hheap. cbn. pose proof (fresh_not_in_heap w _ Hd) as Hne.
    rewrite lookup_insert_ne by done. by rewrite lookup_insert_ne. }
  assert (Hobj : getObj (defaultOptions m) w1 = getObj (defaultOptions m) w).
  { rewrite (getObj_heap _ _ _ Hheap), getObj_defaults_prepared.
    apply entry_getObj. }
  set (l2 := (entry None w1).1). set (wb := (entry None w1).2).
  assert (Hhit2 : hitPath m url l2 wb = Some p).
  { rewrite <- Hhit. apply hitPath_other_object; [|done..].
    unfold l2, wb. rewrite (merged_fresh m w1 Hd1). by rewrite Hm1, Hobj. }
  split.
  - eexists. unfold run, isCachedURL. unfold andThen at 1.
    rewrite optionsArg_run. fold l2 wb.
    pose proof (isCachedURL_hit m url l2 Hc tt wb p Hhit2) as Hprobe.
    unfold isCachedURL, optionsArg in Hprobe.
    unfold andThen at 1, resolve at 1 in Hprobe. by rewrite Hprobe.
  - eexists. unfold run, downloadAndCacheUrl. unfold andThen at 1.
    rewrite optionsArg_run. fold l2 wb.
    rewrite (cacheUrl_hit m url l2 _ Hc tt wb p Hhit2).
    split; [reflexivity|]. split; [done|]. split; [done|].
    eexists. by rewrite (lookupEvents_hit _ _ _ _ _ Hhit2).
Qed.

(** The hypotheses of X11 hold of a first download of the scenario URL
    with the options argument left out. *)
Lemma round_trip_without_options_witness :
  is_Some (heap world1 !! defaultOptions manager0)
  /\ run (downloadAndCacheUrl manager0 url0 None) world1
     = (Resolved path0, (run (downloadAndCacheUrl manager0 url0 None) world1).2)
  /\ exists w2,
       run (isCachedURL manager0 url0 None)
           (run (downloadAndCacheUrl manager0 url0 None) world1).2
       = (Resolved true, w2).
Proof.
  assert (H1 : is_Some (heap world1 !! defaultOptions manager0))
    by (vm_compute; eauto).
  assert (H2 : run (downloadAndCacheUrl manager0 url0 None) world1
               = (Resolved path0,
                  (run (downloadAndCacheUrl manager0 url0 None) world1).2))
    by (vm_compute; reflexivity).
  split; [exact H1|]. split; [exact H2|].
  exact (proj1 (round_trip_without_options manager0 url0 world1 path0 _ H1 H2)).
Defined.

(* ===================================================================== *)
(** ** Further properties of the key deriver *)
(* ===================================================================== *)


Section HashCode.
Local Open Scope Z_scope.

Lemma toInt32_range z : -2147483648 <= Js.toInt32 z < 2147483648.
Proof.
  unfold Js.toInt32.
  pose proof (Z.mod_pos_bound (z + 2147483648) 4294967296 eq_refl). lia.
Qed.

Lemma toInt32_congruent z : Js.toInt32 z mod 4294967296 = z mod 4294967296.
Proof.
  unfold Js.toInt32.
  rewrite Zminus_mod, Zmod_mod, <- Zminus_mod. f_equal. lia.
Qed.

Lemma toInt32_of_congruent a b :
  a mod 4294967296 = b mod 4294967296 -> Js.toInt32 a = Js.toInt32 b.
Proof.
  intros H. unfold Js.toInt32.
  rewrite (Zplus_mod a), (Zplus_mod b), H. done.
Qed.

Lemma toInt32_fixed z : -2147483648 <= z < 2147483648 -> Js.toInt32 z = z.
Proof.
  intros H. unfold Js.toInt32. rewrite Z.mod_small; lia.
Qed.

Lemma hashLoop_wraps s h :
  PathUtils.hashLoop s (Js.toInt32 h) = Js.toInt32 (horner s h).
Proof.
  revert h. induction s as [|c s IH]; intros h; [done|].
  cbn [PathUtils.hashLoop horner]. rewrite <- IH. f_equal.
  apply toInt32_of_congruent. unfold Js.imul.
  rewrite (Zplus_mod (Js.toInt32 (31 * Js.toInt32 h)) (Js.code c)),
    toInt32_congruent.
  rewrite (Zmult_mod 31 (Js.toInt32 h)), toInt32_congruent.
  by rewrite <- Zmult_mod, <- Zplus_mod.
Qed.

Lemma hashLoop_app s1 s2 h :
  PathUtils.hashLoop (s1 +:+ s2) h = PathUtils.hashLoop s2 (PathUtils.hashLoop s1 h).
Proof.
  revert h. induction s1 as [|c s1 IH]; intros h; [done|].
  change (String c s1 +:+ s2) with (String c (s1 +:+ s2)). cbn. apply IH.
Qed.

Lemma hashCode_range s :
  -2147483648 <= hashCode s /\ hashCode s < 2147483648.
Proof.
  unfold hashCode. change 0 with (Js.toInt32 0). rewrite hashLoop_wraps.
  pose proof (toInt32_range (horner s 0)). lia.
Qed.

(** X12. [hashCode] is the string hash of Java: the polynomial of the
    character codes in base 31, wrapped to a signed 32-bit integer at
    every step and hence as a whole.  It is 0 on the empty string, stays
    within the signed 32-bit range, and extends over an appended
    character by one more wrapped step. *)
Theorem hashCode_is_wrapped_polynomial s :
  hashCode s = Js.toInt32 (horner s 0)
  /\ -2147483648 <= hashCode s < 2147483648
  /\ hashCode "" = 0
  /\ (forall c, hashCode (s +:+ String c "")
                = Js.toInt32 (31 * hashCode s + Js.code c)).
Proof.
  assert (H : hashCode s = Js.toInt32 (horner s 0)).
  { unfold hashCode. by rewrite <- hashLoop_wraps. }
  split; [done|]. split; [rewrite H; apply toInt32_range|]. split; [done|].
  intros c. unfold hashCode. rewrite hashLoop_app. cbn.
  apply toInt32_of_congruent. unfold Js.imul.
  rewrite (Zplus_mod (Js.toInt32 _) (Js.code c)), toInt32_congruent.
  by rewrite <- Zplus_mod.
Qed.
End HashCode.

Lemma substring_zero_length s : String.substring 0 (String.length s) s = s.
Proof. induction s as [|c s IH]; [done|]. cbn. by rewrite IH. Qed.

Lemma substring_split k s :
  (k <= String.length s)%nat ->
  String.substring 0 k s +:+ String.substring k (String.length s - k) s = s.
Proof.
  revert k. induction s as [|c s IH]; intros k Hk.
  - by destruct k.
  - destruct k as [|k].
    + change (String.substring 0 0 (String c s)) with "".
      change ("" +:+ ?x) with x.
      rewrite Nat.sub_0_r. apply substring_zero_length.
    + cbn in Hk. cbn [String.substring String.length Nat.sub].
      change (String c ?a +:+ ?b) with (String c (a +:+ b)).
      f_equal. apply IH. lia.
Qed.

Lemma js_substring_halves k s :
  (k <= String.length s)%nat ->
  Js.substring 0 k s +:+ Js.substring k (String.length s) s = s.
Proof.
  intros Hk. unfold Js.substring.
  replace (Nat.min 0 (String.length s)) with 0%nat by lia.
  replace (Nat.min k (String.length s)) with k by lia.
  replace (Nat.min (String.length s) (String.length s)) with (String.length s)
    by lia.
  replace (Nat.min 0 k) with 0%nat by lia.
  replace (Nat.max 0 k - 0)%nat with k by lia.
  replace (Nat.min k (String.length s)) with k by lia.
  replace (Nat.max k (String.length s) - k)%nat with (String.length s - k)%nat
    by lia.
  by apply substring_split.
Qed.

Lemma indexOf_prefix needle s n :
  Js.indexOf needle s = Some n ->
  String.prefix needle (Js.substring n (String.length s) s) = true.
Proof.
  revert n. induction s as [|c s IH]; intros n.
  - destruct needle as [|d needle]; [|done]. by intros [= <-].
  - cbn [Js.indexOf]. destruct (String.prefix needle (String c s)) eqn:Hp.
    + intros [= <-]. unfold Js.substring.
      replace (Nat.min 0 (String.length (String c s))) with 0%nat by lia.
      replace (Nat.min (String.length (String c s)) (String.length (String c s)))
        with (String.length (String c s)) by lia.
      replace (Nat.min 0 (String.length (String c s))) with 0%nat by lia.
      replace (Nat.max 0 (String.length (String c s)) - 0)%nat
        with (String.length (String c s)) by lia.
      by rewrite substring_zero_length.
    + destruct (Js.indexOf needle s) as [n'|] eqn:Hi; [|done].
      intros [= <-]. specialize (IH n' eq_refl).
      assert (Hle : forall a b, Js.substring (S a) (String.length (String c b)) (String c b)
                                = Js.substring a (String.length b) b).
      { intros a b. unfold Js.substring. cbn [String.length].
        rewrite <- !Nat.succ_min_distr, <- Nat.succ_max_distr. cbn. done. }
      by rewrite Hle.
Qed.

(** X13. For a URL that contains the formula marker the hashed string is
    directory, file name and extension followed by the decimal sum of the
    hash codes of the two halves of the text from the marker on, whatever
    the query policy.  The halves make up that text, which starts with the
    marker; the sum is not wrapped, so it ranges over 33 bits and may lie
    outside the signed 32-bit range. *)
Theorem formula_key_hashes_the_marker_suffix url :
  let formulaParams :=
    Js.substring (default 0%nat (Js.indexOf formulaFlag url))
                 (String.length url) url in
  let half := Nat.div (String.length formulaParams) 2 in
  Js.substring 0 half formulaParams
    +:+ Js.substring half (String.length formulaParams) formulaParams
  = formulaParams
  /\ (-4294967296 <= mergeHashCode url <= 4294967294)%Z
  /\ (Js.includes formulaFlag url = true ->
      String.prefix formulaFlag formulaParams = true
      /\ forall policy,
           generateCacheKey url policy
           = Sha1.SHA1 (filePathOf (parse url) +:+ fileNameOf (parse url)
                          +:+ typeOf (fileNameOf (parse url))
                          +:+ Js.numberToString (mergeHashCode url))
             +:+ "." +:+ typeOf (fileNameOf (parse url)))
  /\ (mergeHashCode "http://h/cgi-bin/math.cgi?x=1" = -2294999076)%Z.
Proof.
  intros formulaParams half. split; [|split; [|split]].
  - apply js_substring_halves. apply Nat.Div0.div_le_upper_bound. lia.
  - unfold mergeHashCode. fold formulaParams. fold half.
    destruct (hashCode_range
                (Js.substring 0 half formulaParams)) as [H1 H2].
    destruct (hashCode_range
                (Js.substring half (String.length formulaParams) formulaParams))
      as [H3 H4].
    lia.
  - intros Hinc. split.
    + unfold formulaParams. unfold Js.includes in Hinc.
      destruct (Js.indexOf formulaFlag url) as [n|] eqn:Hi; [|done].
      by apply indexOf_prefix.
    + intros policy. rewrite generateCacheKey_unfold. unfold cacheable.
      by rewrite Hinc.
  - vm_compute. reflexivity.
Qed.

Section KeyShape.




Lemma length_app_string a b :
  String.length (a +:+ b) = (String.length a + String.length b)%nat.
Proof.
  induction a as [|c a IH]; [done|].
  change (String c a +:+ b) with (String c (a +:+ b)). cbn. by rewrite IH.
Qed.










End KeyShape.

Section PathSplit.

Lemma join_cons_head sep d p ps :
  Js.join sep (String d p :: ps) = String d (Js.join sep (p :: ps)).
Proof. by destruct ps. Qed.

Lemma split_nonempty c s : Js.split c s <> [].
Proof.
  destruct s as [|d s]; [done|]. cbn.
  destruct (Ascii.eqb d c); [done|]. by destruct (Js.split c s).
Qed.

(** Joining what [split] gave restores the string. *)
Lemma join_split c s : Js.join (String c "") (Js.split c s) = s.
Proof.
  induction s as [|d s IH]; [done|]. cbn [Js.split].
  destruct (Ascii.eqb_spec d c) as [->|Hne].
  - pose proof (split_nonempty c s) as Hs.
    destruct (Js.split c s) as [|p ps]; [done|].
    change (Js.join (String c "") ("" :: p :: ps))
      with ("" +:+ String c "" +:+ Js.join (String c "") (p :: ps)).
    rewrite IH. done.
  - pose proof (split_nonempty c s) as Hs.
    destruct (Js.split c s) as [|p ps]; [done|].
    by rewrite join_cons_head, IH.
Qed.

Lemma split_removelast c dir file :
  occurs c file = false ->
  List.removelast (Js.split c (dir +:+ String c file)) = Js.split c dir.
Proof.
  intros Hf. induction dir as [|d dir IH].
  - change ("" +:+ String c file) with (String c file). cbn.
    by rewrite Ascii.eqb_refl, (split_no_sep c file Hf).
  - change (String d dir +:+ String c file)
      with (String d (dir +:+ String c file)).
    destruct (split_app_last c dir file Hf) as [Hlen _].
    cbn [Js.split]. destruct (Ascii.eqb d c).
    + destruct (Js.split c (dir +:+ String c file)) as [|p ps] eqn:Hs;
        [cbn in Hlen; lia|].
      change (List.removelast ("" :: p :: ps)) with ("" :: List.removelast (p :: ps)).
      by rewrite IH.
    + destruct (Js.split c (dir +:+ String c file)) as [|p [|p' ps]] eqn:Hs;
        [cbn in Hlen; lia..|].
      change (List.removelast (String d p :: p' :: ps))
        with (String d p :: List.removelast (p' :: ps)).
      change (List.removelast (p :: p' :: ps))
        with (p :: List.removelast (p' :: ps)) in IH.
      by rewrite <- IH.
Qed.

(** X15. The hashed string does not keep the boundary between directory
    and file name: for a URL outside the formula family whose path is a
    directory, a slash and a file name, it is the directory, the file
    name, the resolved extension and the joined query values, put together
    without a separator.  Paths that differ only in where their last slash
    stands, such as [/a/bc] and [/ab/c], therefore get the same cache
    key. *)
Theorem hashed_string_drops_the_last_slash url dir file policy :
  pathname (parse url) = dir +:+ "/" +:+ file ->
  occurs "/" file = false ->
  Js.includes formulaFlag url = false ->
  cacheable url policy
  = dir +:+ file +:+ typeOf file
      +:+ partToString (getQueryForCacheKey (parse url) policy)
  /\ generateCacheKey url policy
     = Sha1.SHA1 (dir +:+ file +:+ typeOf file
                    +:+ partToString (getQueryForCacheKey (parse url) policy))
       +:+ "." +:+ typeOf file.
Proof.
  intros Hpath Hfile Hflag.
  assert (Hname : fileNameOf (parse url) = file).
  { unfold fileNameOf. rewrite Hpath.
    change (dir +:+ "/" +:+ file) with (dir +:+ String "/" file).
    by destruct (split_app_last "/" dir file Hfile) as [_ ->]. }
  assert (Hdir : filePathOf (parse url) = dir).
  { unfold filePathOf. rewrite Hpath.
    change (dir +:+ "/" +:+ file) with (dir +:+ String "/" file).
    rewrite (split_removelast "/" dir file Hfile). apply (join_split "/"). }
  assert (Hc : cacheable url policy
               = dir +:+ file +:+ typeOf file
                   +:+ partToString (getQueryForCacheKey (parse url) policy)).
  { unfold cacheable. by rewrite Hflag, Hname, Hdir. }
  split; [done|]. by rewrite generateCacheKey_unfold, Hc, Hname.
Qed.

(** The hypotheses of X15 hold of [http://h/a/bc] and of [http://h/ab/c],
    which get the same relative path. *)
Lemma hashed_string_drops_the_last_slash_witness :
  pathname (parse "http://h/a/bc") = "/a" +:+ "/" +:+ "bc"
  /\ pathname (parse "http://h/ab/c") = "/ab" +:+ "/" +:+ "c"
  /\ cacheable "http://h/a/bc" (UseBool true) = "/abcjpg"
  /\ cacheable "http://h/ab/c" (UseBool true) = "/abcjpg"
  /\ getImageRelativeFilePath "http://h/a/bc"
     = getImageRelativeFilePath "http://h/ab/c".
Proof.
  split; [reflexivity|]. split; [reflexivity|].
  split; [|split].
  - exact (proj1 (hashed_string_drops_the_last_slash "http://h/a/bc" "/a" "bc"
                    (UseBool true) eq_refl eq_refl eq_refl)).
  - exact (proj1 (hashed_string_drops_the_last_slash "http://h/ab/c" "/ab" "c"
                    (UseBool true) eq_refl eq_refl eq_refl)).
  - vm_compute. reflexivity.
Defined.
End PathSplit.

Section NamedParameters.

Lemma get_set k k' v (o : Js.Obj) :
  Js.get k (Js.set k' v o) = if String.eqb k' k then Some v else Js.get k o.
Proof.
  induction o as [|[k0 v0] o IH]; cbn.
  - by destruct (String.eqb k' k).
  - destruct (String.eqb_spec k0 k') as [->|Hne]; cbn.
    + by destruct (String.eqb k' k).
    + rewrite IH. destruct (String.eqb_spec k0 k) as [->|Hne2]; [|done].
      destruct (String.eqb_spec k' k) as [->|_]; [done|done].
Qed.

Lemma set_keys_elem x k v (o : Js.Obj) :
  x ∈ (Js.set k v o).*1 <-> x = k \/ x ∈ o.*1.
Proof.
  induction o as [|[k0 v0] o IH]; cbn.
  - rewrite elem_of_cons, elem_of_nil. tauto.
  - destruct (String.eqb_spec k0 k) as [->|Hne]; cbn.
    + rewrite !elem_of_cons. tauto.
    + rewrite !elem_of_cons, IH. tauto.
Qed.

Lemma set_keys_NoDup k v (o : Js.Obj) :
  NoDup o.*1 -> NoDup (Js.set k v o).*1.
Proof.
  induction o as [|[k0 v0] o IH]; cbn.
  - intros _. apply NoDup_singleton.
  - intros [Hk Ho]%NoDup_cons.
    destruct (String.eqb_spec k0 k) as [->|Hne]; cbn.
    + by apply NoDup_cons.
    + apply NoDup_cons. split; [|by apply IH].
      rewrite set_keys_elem. by intros [?|?].
Qed.

Lemma pickInto_NoDup acc (o : Js.Obj) names :
  NoDup acc.*1 -> NoDup (Js.pickInto acc o names).*1.
Proof.
  revert acc. induction names as [|n ns IH]; intros acc Hacc; cbn; [done|].
  destruct (Js.get n o); apply IH; [by apply set_keys_NoDup|done].
Qed.

Lemma pickInto_get k acc (o : Js.Obj) names :
  Js.get k (Js.pickInto acc o names)
  = match Js.get k o with
    | Some v => if existsb (String.eqb k) names then Some v else Js.get k acc
    | None => Js.get k acc
    end.
Proof.
  revert acc. induction names as [|n ns IH]; intros acc; cbn.
  - by destruct (Js.get k o).
  - destruct (Js.get n o) as [v|] eqn:Hn.
    + rewrite IH, get_set.
      destruct (String.eqb_spec k n) as [->|Hne].
      * rewrite Hn. cbn. rewrite String.eqb_refl. by destruct (existsb _ ns).
      * destruct (String.eqb_spec n k) as [->|_]; [done|]. done.
    + rewrite IH.
      destruct (String.eqb_spec k n) as [->|Hne]; [|done].
      by rewrite Hn.
Qed.

Lemma filter_get k (g : string -> bool) (o : Js.Obj) :
  Js.get k (List.filter (fun kv => g kv.1) o)
  = if g k then Js.get k o else None.
Proof.
  induction o as [|[k0 v0] o IH]; cbn; [by destruct (g k)|].
  destruct (String.eqb_spec k0 k) as [->|Hne].
  - destruct (g k) eqn:Hg; cbn; [by rewrite String.eqb_refl|].
    rewrite IH. by rewrite ?Hg.
  - destruct (g k0); cbn; [|done].
    destruct (String.eqb_spec k0 k); [done|]. done.
Qed.

Lemma filter_keys_NoDup (f : string * string -> bool) (o : Js.Obj) :
  NoDup o.*1 -> NoDup (List.filter f o).*1.
Proof.
  induction o as [|[k0 v0] o IH]; cbn; [done|].
  intros [Hk Ho]%NoDup_cons. destruct (f (k0, v0)); cbn; [|by apply IH].
  apply NoDup_cons. split; [|by apply IH].
  intros [[k1 v1] [Heq Hin]]%list_elem_of_fmap. cbn in Heq. subst k1.
  apply Hk. apply list_elem_of_fmap. exists (k0, v1). split; [done|].
  apply list_elem_of_In. apply list_elem_of_In in Hin.
  by apply List.filter_In in Hin as [? _].
Qed.

(** Two objects with the same properties are the same up to the order of
    enumeration. *)
Lemma obj_perm_of_get (o1 o2 : Js.Obj) :
  NoDup o1.*1 -> NoDup o2.*1 ->
  (forall k, Js.get k o1 = Js.get k o2) -> o1 ≡ₚ o2.
Proof.
  intros H1 H2 Hget. apply NoDup_Permutation.
  - by apply NoDup_fmap_1 in H1.
  - by apply NoDup_fmap_1 in H2.
  - intros [k v]. by rewrite <- !get_Some_elem, Hget.
Qed.

Lemma pick_filter (o : Js.Obj) names :
  NoDup o.*1 ->
  Js.pick o names
  ≡ₚ List.filter (fun kv => existsb (String.eqb kv.1) names) o.
Proof.
  intros Ho. apply obj_perm_of_get.
  - apply pickInto_NoDup. apply NoDup_nil_2.
  - by apply filter_keys_NoDup.
  - intros k. unfold Js.pick.
    rewrite pickInto_get, (filter_get k (fun k => existsb (String.eqb k) names)).
    cbn. destruct (Js.get k o), (existsb _ names); done.
Qed.

Lemma existsb_eqb_elem k (names : list string) :
  existsb (String.eqb k) names = true <-> k ∈ names.
Proof.
  rewrite existsb_exists. split.
  - intros [x [Hin ->%String.eqb_eq]]. by apply list_elem_of_In.
  - intros Hin. exists k. split; [by apply list_elem_of_In|apply String.eqb_refl].
Qed.

Lemma filter_ext_in (f g : string * string -> bool) (o : Js.Obj) :
  (forall kv, kv ∈ o -> f kv = g kv) -> List.filter f o = List.filter g o.
Proof.
  intros H. apply List.filter_ext_in. intros kv Hin. apply H.
  by apply list_elem_of_In.
Qed.

(** X16. With a list of names as the query policy, the values that enter
    the hashed string are those of the URL's parameters whose name is in
    the list, in the order of their names.  So neither the order of the
    list, nor a repeated name, nor a name the URL does not have changes
    the key; a list that names every parameter of the URL gives what
    [true] gives, and a list that names none of them gives the empty
    array, which renders as the empty string that [false] gives.  Names
    are property names as [Js.pick] reads them, not lodash paths. *)
Theorem named_parameters_select_the_values url names :
  let q := query (parse url) in
  let named (kv : string * string) := existsb (String.eqb kv.1) names in
  getQueryForCacheKey (parse url) (UseNames names)
  = ValuesPart (serializeObjectKeys (List.filter named q))
  /\ (forall names',
        (forall k, k ∈ q.*1 -> k ∈ names <-> k ∈ names') ->
        getQueryForCacheKey (parse url) (UseNames names')
        = getQueryForCacheKey (parse url) (UseNames names))
  /\ ((forall k, k ∈ q.*1 -> k ∈ names) ->
      getQueryForCacheKey (parse url) (UseNames names)
      = getQueryForCacheKey (parse url) (UseBool true))
  /\ ((forall k, k ∈ q.*1 -> k ∉ names) ->
      getQueryForCacheKey (parse url) (UseNames names) = ValuesPart []
      /\ partToString (getQueryForCacheKey (parse url) (UseNames names))
         = partToString (getQueryForCacheKey (parse url) (UseBool false))).
Proof.
  intros q named.
  pose proof (parse_query_NoDup url) as Hq. fold q in Hq.
  assert (Hsel : forall ns,
    getQueryForCacheKey (parse url) (UseNames ns)
    = ValuesPart (serializeObjectKeys
        (List.filter (fun kv => existsb (String.eqb kv.1) ns) q))).
  { intros ns. cbn [getQueryForCacheKey]. fold q. f_equal.
    apply serializeObjectKeys_permutation; [|by apply pick_filter].
    apply pickInto_NoDup. apply NoDup_nil_2. }
  split; [apply Hsel|]. split; [|split].
  - intros names' Hsame. rewrite !Hsel. do 2 f_equal.
    apply filter_ext_in. intros [k v] Hin. cbn.
    assert (Hk : k ∈ q.*1).
    { apply list_elem_of_fmap. by exists (k, v). }
    specialize (Hsame k Hk).
    destruct (existsb (String.eqb k) names') eqn:H1,
             (existsb (String.eqb k) names) eqn:H2; try done.
    + apply existsb_eqb_elem in H1. apply Hsame in H1.
      apply existsb_eqb_elem in H1. congruence.
    + apply existsb_eqb_elem in H2. apply Hsame in H2.
      apply existsb_eqb_elem in H2. congruence.
  - intros Hall. rewrite Hsel. cbn [getQueryForCacheKey]. fold q. do 2 f_equal.
    rewrite (filter_ext_in _ (fun _ => true) q).
    + clear. induction q as [|x l IH]; cbn; [done|]. by rewrite IH.
    + intros [k v] Hin. cbn. apply existsb_eqb_elem. apply Hall.
      apply list_elem_of_fmap. by exists (k, v).
  - intros Hnone.
    assert (Hnil : getQueryForCacheKey (parse url) (UseNames names) = ValuesPart []).
    { rewrite Hsel. rewrite (filter_ext_in _ (fun _ => false) q).
      - assert (Hf : List.filter (fun _ : string * string => false) q = []).
        { clear. induction q as [|x l IH]; cbn; [done|]. exact IH. }
        by rewrite Hf.
      - intros [k v] Hin. cbn.
        destruct (existsb (String.eqb k) names) eqn:H; [|done].
        apply existsb_eqb_elem in H. exfalso. apply (Hnone k); [|done].
        apply list_elem_of_fmap. by exists (k, v). }
    split; [exact Hnil|]. by rewrite Hnil.
Qed.

End NamedParameters.

Section CanonicalUrl.

Lemma lowerChar_letter c :
  Js.isLower (Js.lowerChar c) = true ->
  (Js.isUpper c || Js.isLower c) = true /\ isSchemeChar c = true
  /\ Ascii.eqb c ":" = false.
Proof.
  destruct c as [[] [] [] [] [] [] [] []]; vm_compute; intros H;
    try discriminate H; by repeat split.
Qed.

Lemma lowerChar_sep c d :
  d = "/"%char \/ d = "?"%char \/ d = "#"%char \/ d = ":"%char ->
  Ascii.eqb (Js.lowerChar c) d = Ascii.eqb c d.
Proof.
  intros [->|[->|[->| ->]]];
    by destruct c as [[] [] [] [] [] [] [] []].
Qed.

Lemma lowerChar_idem c : Js.lowerChar (Js.lowerChar c) = Js.lowerChar c.
Proof. by destruct c as [[] [] [] [] [] [] [] []]. Qed.

Lemma toLowerCase_idem s : Js.toLowerCase (Js.toLowerCase s) = Js.toLowerCase s.
Proof. induction s as [|c s IH]; [done|]. cbn. by rewrite lowerChar_idem, IH. Qed.

Lemma toLowerCase_app a b :
  Js.toLowerCase (a +:+ b) = Js.toLowerCase a +:+ Js.toLowerCase b.
Proof.
  induction a as [|c a IH]; [done|].
  change (String c a +:+ b) with (String c (a +:+ b)). cbn [Js.toLowerCase].
  by rewrite IH.
Qed.

Lemma occurs_toLowerCase d s :
  d = "/"%char \/ d = "?"%char \/ d = "#"%char \/ d = ":"%char ->
  occurs d (Js.toLowerCase s) = occurs d s.
Proof.
  intros Hd. induction s as [|c s IH]; [done|]. cbn.
  by rewrite (lowerChar_sep c d Hd), IH.
Qed.

Lemma occurs_app d a b : occurs d (a +:+ b) = occurs d a || occurs d b.
Proof.
  induction a as [|c a IH]; [done|].
  change (String c a +:+ b) with (String c (a +:+ b)). cbn.
  by rewrite IH, orb_assoc.
Qed.

Lemma append_assoc (a b c : string) : a +:+ (b +:+ c) = (a +:+ b) +:+ c.
Proof.
  induction a as [|x a IH]; [done|].
  change (String x a +:+ (b +:+ c)) with (String x (a +:+ (b +:+ c))).
  by rewrite IH.
Qed.

Lemma append_nil_r (a : string) : a +:+ "" = a.
Proof.
  induction a as [|x a IH]; [done|].
  change (String x a +:+ "") with (String x (a +:+ "")). by rewrite IH.
Qed.

Lemma substring_app_prefix a b :
  String.substring 0 (String.length a) (a +:+ b) = a.
Proof.
  induction a as [|c a IH]; [by destruct b|].
  change (String c a +:+ b) with (String c (a +:+ b)). cbn. by rewrite IH.
Qed.

Lemma substring_app_suffix a b :
  String.substring (String.length a) (String.length b) (a +:+ b) = b.
Proof.
  induction a as [|c a IH]; [apply substring_zero_length|].
  change (String c a +:+ b) with (String c (a +:+ b)). cbn. exact IH.
Qed.

Lemma schemeEnd_letters a r :
  allChars (fun c => Js.isLower (Js.lowerChar c)) a = true ->
  schemeEnd (a +:+ String ":" r) = Some (String.length a).
Proof.
  induction a as [|c a IH]; [done|].
  change (String c a +:+ String ":" r) with (String c (a +:+ String ":" r)).
  cbn. intros [Hc Ha]%andb_true_iff.
  destruct (lowerChar_letter c Hc) as (_ & Hs & Hcolon).
  by rewrite Hcolon, Hs, (IH Ha).
Qed.

(** A scheme of letters followed by [://] is split off and lowercased. *)
Lemma extractProtocol_letters a b :
  a <> "" ->
  allChars (fun c => Js.isLower (Js.lowerChar c)) a = true ->
  extractProtocol (a +:+ "://" +:+ b) = (Js.toLowerCase a +:+ ":", true, b).
Proof.
  intros Hne Ha. unfold extractProtocol.
  pose proof (schemeEnd_letters a ("//" +:+ b) Ha) as Hend.
  change (a +:+ String ":" ("//" +:+ b)) with (a +:+ "://" +:+ b) in Hend.
  assert (Hfst : String.substring 0 (S (String.length a)) (a +:+ "://" +:+ b)
                 = a +:+ ":").
  { change (a +:+ "://" +:+ b) with (a +:+ (":" +:+ ("//" +:+ b))).
    rewrite append_assoc.
    replace (S (String.length a)) with (String.length (a +:+ ":"))
      by (rewrite length_app_string; cbn; lia).
    apply substring_app_prefix. }
  assert (Hsnd : String.substring (S (String.length a))
                   (String.length (a +:+ "://" +:+ b) - S (String.length a))
                   (a +:+ "://" +:+ b)
                 = "//" +:+ b).
  { change (a +:+ "://" +:+ b) with (a +:+ (":" +:+ ("//" +:+ b))).
    rewrite append_assoc.
    replace (S (String.length a)) with (String.length (a +:+ ":"))
      by (rewrite length_app_string; cbn; lia).
    replace (String.length ((a +:+ ":") +:+ ("//" +:+ b))
             - String.length (a +:+ ":"))%nat
      with (String.length ("//" +:+ b))
      by (rewrite !length_app_string; cbn; lia).
    apply substring_app_suffix. }
  destruct a as [|c a]; [done|].
  change (String c a +:+ "://" +:+ b) with (String c (a +:+ "://" +:+ b)) in *.
  cbn in Ha. apply andb_true_iff in Ha as [Hc _].
  destruct (lowerChar_letter c Hc) as (-> & _ & _).
  rewrite Hend, Hfst, Hsnd.
  rewrite toLowerCase_app.
  change (String.prefix "//" ("//" +:+ b)) with (String.prefix "" b).
  replace (String.prefix "" b) with true by (by destruct b). cbv iota.
  change (String.length ("//" +:+ b) - 2)%nat with (String.length b - 0)%nat.
  rewrite Nat.sub_0_r.
  change (String.substring 2 (String.length b) ("//" +:+ b))
    with (String.substring 0 (String.length b) b).
  by rewrite substring_zero_length.
Qed.

Lemma letters_of_lower a p :
  Js.toLowerCase a = p -> allChars Js.isLower p = true ->
  allChars (fun c => Js.isLower (Js.lowerChar c)) a = true.
Proof.
  intros <-. induction a as [|c a IH]; [done|]. cbn.
  intros [-> Ha]%andb_true_iff. by rewrite IH.
Qed.

Lemma lower_app_split s p q :
  Js.toLowerCase s = p +:+ q ->
  exists a b, s = a +:+ b /\ Js.toLowerCase a = p /\ Js.toLowerCase b = q.
Proof.
  revert s. induction p as [|c p IH]; intros s.
  - intros H. by exists "", s.
  - change (String c p +:+ q) with (String c (p +:+ q)).
    destruct s as [|d s]; [done|]. cbn. intros [= Hd Hs].
    destruct (IH s Hs) as (a & b & -> & Ha & Hb).
    exists (String d a), b. cbn. by rewrite Hd, Ha.
Qed.

Lemma lower_seps s : Js.toLowerCase s = "://" -> s = "://".
Proof.
  destruct s as [|c1 [|c2 [|c3 [|c4 s]]]]; try done. cbn.
  intros [= H1 H2 H3].
  assert (Hpre : forall c d,
    d = "/"%char \/ d = "?"%char \/ d = "#"%char \/ d = ":"%char ->
    Js.lowerChar c = d -> c = d).
  { intros c d Hd Hc. apply Ascii.eqb_eq. rewrite <- (lowerChar_sep c d Hd).
    by apply Ascii.eqb_eq. }
  rewrite (Hpre c1 ":"%char), (Hpre c2 "/"%char), (Hpre c3 "/"%char); auto.
Qed.

(** The URL parser on a cacheable string: the scheme is [http:] or
    [https:] and the double slash is there. *)
Lemma cacheable_protocol u :
  isCacheable (JsString u) = true ->
  exists proto b,
    (proto = "http" \/ proto = "https")
    /\ extractProtocol u = (proto +:+ ":", true, b).
Proof.
  intros (s & [= <-] & H)%isCacheable_spec.
  assert (Hgen : forall p, allChars Js.isLower p = true -> p <> "" ->
            startsWithIgnoringCase u (p +:+ "://") ->
            exists b, extractProtocol u = (p +:+ ":", true, b)).
  { intros p Hp Hne (a & b & -> & Ha).
    destruct (lower_app_split a p "://" Ha) as (a1 & a2 & -> & H1 & H2).
    apply lower_seps in H2. subst a2. exists b.
    rewrite <- append_assoc.
    change (a1 +:+ ("://" +:+ b)) with (a1 +:+ "://" +:+ b).
    rewrite extractProtocol_letters, H1; [done| |by eapply letters_of_lower].
    intros ->. by subst p. }
  destruct H as [H|H].
  - destruct (Hgen "http" eq_refl ltac:(done) H) as [b Hb].
    exists "http", b. split; [by left|done].
  - destruct (Hgen "https" eq_refl ltac:(done) H) as [b Hb].
    exists "https", b. split; [by right|done].
Qed.

Lemma cutAt_app c a b :
  occurs c a = false -> (b = "" \/ exists r, b = String c r) ->
  cutAt c (a +:+ b) = (a, b).
Proof.
  intros Ha Hb. induction a as [|d a IH].
  - change ("" +:+ b) with b. destruct Hb as [->|[r ->]]; [done|].
    cbn. by rewrite Ascii.eqb_refl.
  - change (String d a +:+ b) with (String d (a +:+ b)). cbn in Ha |- *.
    apply orb_false_iff in Ha as [Hd Ha]. by rewrite Hd, (IH Ha).
Qed.

Lemma cutAt_spec c s a b :
  cutAt c s = (a, b) ->
  s = a +:+ b /\ occurs c a = false /\ (b = "" \/ exists r, b = String c r).
Proof.
  revert a b. induction s as [|d s IH]; intros a b; cbn.
  - intros [= <- <-]. split; [done|]. split; [done|by left].
  - destruct (Ascii.eqb_spec d c) as [->|Hne].
    + intros [= <- <-]. split; [done|]. split; [done|]. right. by exists s.
    + destruct (cutAt c s) as [a' b'] eqn:Hcut. intros [= <- <-].
      destruct (IH a' b' eq_refl) as (-> & Ho & Hb).
      split; [done|]. split; [|done]. cbn.
      rewrite Ho. by destruct (Ascii.eqb_spec d c).
Qed.

(** X17. Under the default query policy (undefined or [false]) the
    canonical URL of a cacheable URL is a fixed point: parsing it gives
    the parts of the original URL with an empty query, canonicalising it
    again changes nothing, it is cacheable itself, and it falls in the same
    host bucket as the original URL.  The URLs are those on which the
    parser model agrees with [url-parse]: visible ASCII without backslash
    and at sign, with a host that is not empty and carries no port. *)
Theorem canonical_url_is_a_fixed_point u policy :
  allChars isPlainUrlChar u = true ->
  host (parse u) <> "" ->
  occurs ":" (host (parse u)) = false ->
  isCacheable (JsString u) = true ->
  policy = None \/ policy = Some (UseBool false) ->
  parse (getCacheableUrl u policy) = setQuery [] (parse u)
  /\ getCacheableUrl (getCacheableUrl u policy) policy = getCacheableUrl u policy
  /\ isCacheable (JsString (getCacheableUrl u policy)) = true
  /\ getHostCachePathComponent (getCacheableUrl u policy)
     = getHostCachePathComponent u.
Proof.
  intros _ _ _ Hc Hpol.
  assert (Hcan : getCacheableUrl u policy = toString (setQuery [] (parse u))).
  { by destruct Hpol as [-> | ->]. }
  assert (Hcan' : forall c, getCacheableUrl c policy
                            = toString (setQuery [] (parse c))).
  { intros c. by destruct Hpol as [-> | ->]. }
  destruct (cacheable_protocol u Hc) as (proto & b & Hproto & Hext).
  assert (Hparse : parse (toString (setQuery [] (parse u)))
                   = setQuery [] (parse u)
                   /\ isCacheable (JsString (toString (setQuery [] (parse u))))
                      = true).
  { unfold parse at 2 3 4. rewrite Hext.
    destruct (cutAt "#" b) as [rest1 h] eqn:H1.
    destruct (cutAt "?" rest1) as [rest2 q] eqn:H2.
    destruct (cutAt "/" rest2) as [hst path] eqn:H3.
    apply cutAt_spec in H1 as (-> & Ho1 & Hh).
    apply cutAt_spec in H2 as (-> & Ho2 & _).
    apply cutAt_spec in H3 as (-> & Ho3 & Hp).
    rewrite occurs_app in Ho1. apply orb_false_iff in Ho1 as [Ho1 _].
    rewrite occurs_app in Ho1. apply orb_false_iff in Ho1 as [Hh1 Hp1].
    rewrite occurs_app in Ho2. apply orb_false_iff in Ho2 as [Hh2 Hp2].
    set (hst' := Js.toLowerCase hst).
    set (path' := match path with
                  | String "/"%char _ => path
                  | _ => match hst' with
                         | "" => path
                         | _ => String "/" path
                         end
                  end).
    assert (Hpath : (path' = "" /\ hst' = "")
                    \/ (exists r, path' = String "/" r)).
    { subst path'. destruct Hp as [->|[r ->]]; [|right; by exists r].
      destruct hst'; [by left|right; by exists ""]. }
    assert (Hocc : forall d, d = "?"%char \/ d = "#"%char ->
                     occurs d hst = false -> occurs d path = false ->
                     occurs d (hst' +:+ path') = false).
    { intros d Hd Hdh Hdp. rewrite occurs_app. subst hst'.
      rewrite occurs_toLowerCase by tauto. rewrite Hdh. cbn.
      subst path'. destruct Hp as [->|[r ->]]; [|done].
      destruct (Js.toLowerCase hst); [done|]. cbn.
      by destruct Hd as [-> | ->]. }
    assert (Hidem : Js.toLowerCase hst' = hst') by apply toLowerCase_idem.
    assert (Hslash : occurs "/" hst' = false).
    { subst hst'. by rewrite occurs_toLowerCase by tauto. }
    clearbody path' hst'.
    unfold setQuery, toString. cbn [protocol slashes host pathname query hash].
    change (qs_stringify []) with "". cbv iota.
    change ("" +:+ h) with h.
    split.
    - assert (Hext' : extractProtocol
                 ((proto +:+ ":") +:+ "//" +:+ hst' +:+ path' +:+ h)
               = (proto +:+ ":", true, (hst' +:+ path') +:+ h)).
      { rewrite (append_assoc hst' path' h).
        destruct Hproto as [-> | ->].
        - exact (extractProtocol_letters "http" ((hst' +:+ path') +:+ h)
                   ltac:(done) eq_refl).
        - exact (extractProtocol_letters "https" ((hst' +:+ path') +:+ h)
                   ltac:(done) eq_refl). }
      unfold parse. rewrite Hext'.
      rewrite (cutAt_app "#" (hst' +:+ path') h);
        [|by apply Hocc; [right|..]|done].
      rewrite <- (append_nil_r (hst' +:+ path')) at 1.
      rewrite (cutAt_app "?" (hst' +:+ path') "");
        [|by apply Hocc; [left|..]|by left].
      rewrite (cutAt_app "/" hst' path').
      + rewrite Hidem.
        f_equal. destruct Hpath as [[-> ->]|[r ->]]; done.
      + exact Hslash.
      + destruct Hpath as [[-> _]|[r ->]]; [by left|right; by exists r].
    - apply isCacheable_spec. eexists. split; [done|].
      destruct Hproto as [-> | ->]; [left|right].
      + by exists "http://", (hst' +:+ path' +:+ h).
      + by exists "https://", (hst' +:+ path' +:+ h). }
  destruct Hparse as [Hparse Hcache].
  rewrite Hcan. split; [exact Hparse|]. split; [|split; [exact Hcache|]].
  - rewrite Hcan'. by rewrite Hparse.
  - unfold getHostCachePathComponent. by rewrite Hparse.
Qed.

(** The hypotheses of X17 hold of [HTTP://Example.COM/a/b.png?x=1#top]
    under the policy [false]; its canonical URL is
    [http://example.com/a/b.png#top]. *)
Lemma canonical_url_is_a_fixed_point_witness :
  allChars isPlainUrlChar "HTTP://Example.COM/a/b.png?x=1#top" = true
  /\ host (parse "HTTP://Example.COM/a/b.png?x=1#top") = "example.com"
  /\ isCacheable (JsString "HTTP://Example.COM/a/b.png?x=1#top") = true
  /\ getCacheableUrl "HTTP://Example.COM/a/b.png?x=1#top" (Some (UseBool false))
     = "http://example.com/a/b.png#top"
  /\ getCacheableUrl
       (getCacheableUrl "HTTP://Example.COM/a/b.png?x=1#top"
          (Some (UseBool false)))
       (Some (UseBool false))
     = getCacheableUrl "HTTP://Example.COM/a/b.png?x=1#top"
         (Some (UseBool false)).
Proof.
  split; [reflexivity|]. split; [reflexivity|]. split; [reflexivity|].
  split; [reflexivity|].
  assert (Hhost : host (parse "HTTP://Example.COM/a/b.png?x=1#top") <> "")
    by (vm_compute; discriminate).
  exact (proj1 (proj2 (canonical_url_is_a_fixed_point
    "HTTP://Example.COM/a/b.png?x=1#top" (Some (UseBool false))
    eq_refl Hhost eq_refl eq_refl (or_intror eq_refl)))).
Defined.

End CanonicalUrl.
